(** * Candidate matching service: profiles, interval merging, specifications

    A shallow embedding of the Python package [match_service]
    ([utils.py], [constants.py], [profile_schema.py], [specifications.py]).

    Conventions of the embedding.
    - A [datetime.date] is its proleptic ordinal, an integer; the [days] of a
      difference of two dates is the difference of the ordinals.
    - A Python [int] is a [Z].  The number of years of experience is
      [round(days / 365, 1)]: it is kept as the exact rational [k / 10].  For
      an odd divisor such as 365 the quotient never lies half-way between two
      tenths, so rounding the exact quotient and rounding its nearest double
      pick the same tenth for every day count that fits a date difference.
      Thresholds read from the configuration are rationals as well.
    - Strings are [string]; [str.lower] and [str.upper] act on the ASCII
      letters.
    - A [set] or [frozenset] of strings is a [gset string].
    - [print] appends a structured message to a log; a raised exception ends
      the computation with [Err], keeping what was printed before. *)

From Stdlib Require Import ZArith QArith Lia Permutation Ascii.
From stdpp Require Import base option list sorting gmap strings.

Open Scope Z_scope.

(** ** Exceptions, results, printed messages *)

Inductive value_error : Type :=
  | WindowBelowOne (n : Z)      (* 'Specified number (n) of last experiences should be >= 1' *)
  | NoCountryNoCity             (* 'Specify either country or city within location criteria' *)
  | NoValidCriteria             (* 'Please specify at least one valid target profile criteria' *)
  | MaxOfEmptySequence.         (* raised by the builtin [max] on an empty list *)

Inductive exception : Type :=
  | IndexError
  | TypeError
  | KeyError (key : string)
  | ValueError (why : value_error).

Inductive result (A : Type) : Type :=
  | Ok (a : A)
  | Err (e : exception).
Arguments Ok {A} a.
Arguments Err {A} e.

Definition result_bind {A B} (f : A → result B) (r : result A) : result B :=
  match r with
  | Ok a => f a
  | Err e => Err e
  end.

#[global] Instance result_ret : MRet result := fun A a => Ok a.
#[global] Instance result_mbind : MBind result := fun A B f r => result_bind f r.

(** ** ASCII case mapping, as used by [str.lower] and [str.upper] *)

Definition ascii_lower (c : ascii) : ascii :=
  let n := N_of_ascii c in
  if (65 <=? n)%N && (n <=? 90)%N then ascii_of_N (n + 32) else c.

Definition ascii_upper (c : ascii) : ascii :=
  let n := N_of_ascii c in
  if (97 <=? n)%N && (n <=? 122)%N then ascii_of_N (n - 32) else c.

Fixpoint lower (s : string) : string :=
  match s with
  | EmptyString => EmptyString
  | String c s' => String (ascii_lower c) (lower s')
  end.

Fixpoint upper (s : string) : string :=
  match s with
  | EmptyString => EmptyString
  | String c s' => String (ascii_upper c) (upper s')
  end.

(** The characters of a string, each as a one-character string: what
    iterating over a [str] yields. *)
Fixpoint chars (s : string) : list string :=
  match s with
  | EmptyString => []
  | String c s' => String c EmptyString :: chars s'
  end.

(** ** Builtins *)

(** [round(x, 1)] for [x = n / d] with [d > 0], as a number of tenths:
    the nearest tenth, a tie going to the even one. *)
Definition round_tenths (n : Z) (d : Z) : Z :=
  let q := (10 * n) / d in
  let r := (10 * n) mod d in
  if 2 * r <? d then q
  else if d <? 2 * r then q + 1
  else if Z.even q then q else q + 1.

Definition tenths (k : Z) : Q := (k # 10)%Q.

(** [sorted(l, key=...)]: the keys are computed first, then compared with
    [<].  The sort is stable and ascending.  Comparing [None] with anything
    raises [TypeError], and every element of a list of two or more takes part
    in a comparison. *)
Section Sorted.
Context {A : Type} (key : A → Z).

Fixpoint insert_sorted (x : A) (l : list A) : list A :=
  match l with
  | [] => [x]
  | y :: l' => if key x <=? key y then x :: y :: l' else y :: insert_sorted x l'
  end.

Definition stable_sort (l : list A) : list A := foldr insert_sorted [] l.
End Sorted.

Definition sorted {A} (key : A → option Z) (l : list A) : result (list A) :=
  if forallb (fun x => bool_decide (is_Some (key x))) l || (length l <? 2)%nat
  then Ok (stable_sort (fun x => default 0 (key x)) l)
  else Err TypeError.

(** [l[start:stop:-1]], after CPython's [PySlice_AdjustIndices] for a step
    of [-1]: bounds are shifted by the length when negative and clipped to
    [-1 .. len - 1]; the slice runs from [start] down to [stop + 1]. *)
Definition adjust_index (len i : Z) : Z :=
  if i <? 0 then (if i + len <? 0 then -1 else i + len)
  else if len <=? i then len - 1 else i.

Definition slice_backwards {A} (l : list A) (start stop : Z) : list A :=
  let len := Z.of_nat (length l) in
  let start' := adjust_index len start in
  let stop' := adjust_index len stop in
  take (Z.to_nat (start' - stop')) (reverse (take (Z.to_nat (start' + 1)) l)).

(** [max(l, key=...)]: the first element whose key is maximal. *)
Fixpoint max_by {A} (key : A → Z) (best : A) (l : list A) : A :=
  match l with
  | [] => best
  | x :: l' => max_by key (if key best <? key x then x else best) l'
  end.

(** [max(l, key=...)] on a list: [ValueError] when the list is empty,
    [TypeError] when a key cannot be computed. *)
Definition max_with_key {A} (key : A → option Z) (l : list A) : result A :=
  match l with
  | [] => Err (ValueError MaxOfEmptySequence)
  | x :: l' =>
      if forallb (fun y => bool_decide (is_Some (key y))) l
      then Ok (max_by (fun y => default 0 (key y)) x l')
      else Err TypeError
  end.

(** ** constants.py *)

Module constants.

Definition EU_COUNTRIES : gset string :=
  list_to_set
    [ "Austria"; "Belgium"; "Bulgaria"; "Croatia"; "Cyprus"; "Czech Republic";
      "Denmark"; "Estonia"; "Finland"; "France"; "Germany"; "Greece";
      "Hungary"; "Ireland"; "Italy"; "Latvia"; "Lithuania"; "Luxembourg";
      "Malta"; "Netherlands"; "Poland"; "Portugal"; "Romania"; "Slovakia";
      "Slovenia"; "Spain"; "Sweden" ]%string.

Definition FAANG : gset string :=
  list_to_set [ "facebook"; "meta"; "apple"; "amazon"; "netflix"; "google" ]%string.

Definition NUMBER_OF_DAYS_IN_ONE_YEAR : Z := 365.

End constants.

(** ** utils.py *)

Module utils.

(** [comparison_functions[operand]]: a missing key raises [KeyError]. *)
Definition comparison_functions (operand : string) : result (Q → Q → bool) :=
  if decide (operand = ">"%string) then Ok (fun x y => negb (Qle_bool x y))
  else if decide (operand = ">="%string) then Ok (fun x y => Qle_bool y x)
  else if decide (operand = "<"%string) then Ok (fun x y => negb (Qle_bool y x))
  else if decide (operand = "<="%string) then Ok (fun x y => Qle_bool x y)
  else if decide (operand = "=="%string) then Ok (fun x y => Qeq_bool x y)
  else Err (KeyError operand).

(** A time interval [[start, end]]. *)
Definition interval : Type := Z * Z.

(** One round of the loop of [merge_intervals].  The list under
    construction is [closed ++ [last]]: [last] is
    [non_overlapping_intervals[-1]], the only element the loop updates. *)
Definition merge_step (acc : list interval * interval) (iv : interval)
  : list interval * interval :=
  let '(closed, (previous_start, previous_end)) := acc in
  let '(start, end_) := iv in
  if start <=? previous_end
  then (closed, (previous_start, Z.max previous_end end_))
  else (closed ++ [(previous_start, previous_end)], (start, end_)).

(** [intervals[0]] raises [IndexError] on the empty list.  The first
    interval of the result is the very list object [intervals[0]], which
    the loop updates in place; the value returned does not depend on that
    sharing, since the loop reads its input from the copy [intervals[1:]]. *)
Definition merge_intervals (intervals : list interval) : result (list interval) :=
  match intervals with
  | [] => Err IndexError
  | first :: rest =>
      let '(closed, last) := fold_left merge_step rest ([], first) in
      Ok (closed ++ [last])
  end.

(** [LowerCaseFrozenSet(data)]: the set of the lower-cased elements. *)
Definition LowerCaseFrozenSet (data : list string) : gset string :=
  list_to_set (lower <$> data).

(** [if number_of_hits:] holds for an integer other than zero, and fails
    for [None] and for [0]. *)
Definition has_intersection_or_is_subset
    (set_to_evaluate required_set : gset string) (number_of_hits : option Z) : bool :=
  match number_of_hits with
  | Some k =>
      if negb (k =? 0)
      then Z.of_nat (size (set_to_evaluate ∩ required_set)) =? k
      else bool_decide (required_set ⊆ set_to_evaluate)
  | None => bool_decide (required_set ⊆ set_to_evaluate)
  end.

End utils.

(** ** What the program prints *)

(** Each [print] of the program, with the values its f-string interpolates. *)
Inductive message : Type :=
  | ExperienceIgnored (first_name last_name job_title company_name : string)
  | DidNotWorkFor (first_name last_name : string) (companies : gset string) (n : Z)
  | DoesNotLiveThere (first_name last_name : string)
  | WorkedForNot (first_name last_name operand : string) (years : Q)
  | LacksSkillSet (first_name last_name : string)
  | LacksSkillSetAtWork (first_name last_name : string)
  | DidNotOccupy (positions : gset string) (n : option Z)
  | WorkedForNotDuring (operand : string) (years : Q) (n : Z)
  | CriteriaNotSupported (criteria_name : string).

(** A computation that prints and may raise: what it printed, then its
    outcome. *)
Record M (A : Type) : Type := Run {
  printed : list message;
  outcome : result A;
}.
Arguments Run {A} printed outcome.
Arguments printed {A} m.
Arguments outcome {A} m.

Definition print (m : message) : M unit := Run [m] (Ok tt).
Definition raise {A} (e : exception) : M A := Run [] (Err e).
Definition lift {A} (r : result A) : M A := Run [] r.

#[global] Instance M_ret : MRet M := fun A a => Run [] (Ok a).
#[global] Instance M_mbind : MBind M := fun A B f m =>
  match outcome m with
  | Ok a => Run (printed m ++ printed (f a)) (outcome (f a))
  | Err e => Run (printed m) (Err e)
  end.

(** ** profile_schema.py *)

Module profile_schema.

Record Location : Type := {
  city : string;
  country : string;
}.

Record Experience : Type := {
  company_name : string;
  job_title : string;
  description : string;
  skills : list string;
  starts_at : Z;
  ends_at : option Z;
  location : Location;
}.

Definition set_ends_at (experience : Experience) (d : Z) : Experience :=
  {| company_name := company_name experience;
     job_title := job_title experience;
     description := description experience;
     skills := skills experience;
     starts_at := starts_at experience;
     ends_at := Some d;
     location := location experience |}.

Record Profile : Type := {
  first_name : string;
  last_name : string;
  profile_skills : list string;
  profile_description : string;
  profile_location : Location;
  experiences : list Experience;
}.

(** [if not experience.ends_at: experience.ends_at = date.today()]: a date
    is always true, so the test holds for [None] alone. *)
Definition with_end_date (today : Z) (experience : Experience) : Experience :=
  match ends_at experience with
  | None => set_ends_at experience today
  | Some _ => experience
  end.

(** The loop of the root validator.  A [for] over a list keeps a position
    [idx] and stops when it passes the end of the list as it is then; the
    index of [enumerate] runs along with it.  The experience is updated in
    place, and [del experiences[idx]] shortens the very list being
    traversed.  Each round advances [idx], so [fuel] rounds are enough once
    [fuel] is the length of the list. *)
Fixpoint validator_loop (today : Z) (first last : string) (fuel idx : nat)
    (experiences : list Experience) : list message * list Experience :=
  match fuel with
  | O => ([], experiences)
  | S fuel' =>
      match experiences !! idx with
      | None => ([], experiences)
      | Some experience =>
          let experience := with_end_date today experience in
          let experiences := <[idx := experience]> experiences in
          if default today (ends_at experience) <=? starts_at experience
          then
            let '(log, r) :=
              validator_loop today first last fuel' (S idx) (delete idx experiences) in
            (ExperienceIgnored first last (job_title experience)
                               (company_name experience) :: log, r)
          else validator_loop today first last fuel' (S idx) experiences
      end
  end.

Definition check_start_date_precedes_end_date (today : Z) (first last : string)
    (experiences : list Experience) : list message * list Experience :=
  validator_loop today first last (length experiences) 0 experiences.

(** Building a [Profile] from a raw record: the fields are taken as given
    and the root validator runs on them; the profile holds the list the
    validator leaves. *)
Definition new_Profile (today : Z) (raw : Profile) : list message * Profile :=
  let '(log, validated) :=
    check_start_date_precedes_end_date today (first_name raw) (last_name raw)
                                       (experiences raw) in
  (log, {| first_name := first_name raw;
           last_name := last_name raw;
           profile_skills := profile_skills raw;
           profile_description := profile_description raw;
           profile_location := profile_location raw;
           experiences := validated |}).

Inductive sorting_criteria : Type := by_starts_at | by_ends_at.

Definition getattr (experience : Experience) (c : sorting_criteria) : option Z :=
  match c with
  | by_starts_at => Some (starts_at experience)
  | by_ends_at => ends_at experience
  end.

Definition _get_experiences_sorted_by (self : Profile) (c : sorting_criteria)
  : result (list Experience) :=
  sorted (fun experience => getattr experience c) (experiences self).

Definition get_n_last_experiences (self : Profile) (n : Z) : result (list Experience) :=
  sorted_experiences ← _get_experiences_sorted_by self by_ends_at;
  if Z.of_nat (length sorted_experiences) <=? n
  then Ok sorted_experiences
  else Ok (slice_backwards sorted_experiences (-1) (- n - 1)).

(** [[starts_at, ends_at]]; an [ends_at] left at [None] raises [TypeError]
    at the first comparison or subtraction that meets it, which every path
    through [merge_intervals] and the summing loop reaches. *)
Definition interval_of (experience : Experience) : result utils.interval :=
  match ends_at experience with
  | Some end_ => Ok (starts_at experience, end_)
  | None => Err TypeError
  end.

Fixpoint intervals_of (l : list Experience) : result (list utils.interval) :=
  match l with
  | [] => Ok []
  | experience :: l' =>
      iv ← interval_of experience;
      ivs ← intervals_of l';
      Ok (iv :: ivs)
  end.

Definition days_of (intervals : list utils.interval) : Z :=
  fold_left (fun days_of_experience '(start, end_) => days_of_experience + (end_ - start))
            intervals 0.

Definition count_years_of_experience (self : Profile)
    (count_overlapping_experiences : bool) : result Q :=
  sorted_experiences ← _get_experiences_sorted_by self by_starts_at;
  intervals ← intervals_of sorted_experiences;
  intervals' ← (if negb count_overlapping_experiences
                then utils.merge_intervals intervals
                else Ok intervals);
  Ok (tenths (round_tenths (days_of intervals') constants.NUMBER_OF_DAYS_IN_ONE_YEAR)).

End profile_schema.

(** ** specifications.py *)

Module specifications.
Import profile_schema.

(** The subclasses of [BaseSpecification], as a closed set of variants. *)
Inductive Specification : Type :=
  | AndSpecification (first second : Specification)
  | EmployerNameSpecification
      (companies_expected : gset string)
      (number_of_last_experiences_to_be_checked : Z)
  | LocationSpecification (expected_locations : gset string)
  | TotalWorkExperienceSpecification
      (years_of_experience_expected : Q)
      (comparison_operand : string)
      (count_overlapping_experiences : bool)
  | SkillsSpecification (expected_skills : gset string) (number_of_hits : option Z)
  | SkillsAtWorkSpecification
      (expected_skills : gset string)
      (number_of_last_experiences_to_be_checked : option Z)
      (number_of_hits : option Z)
  | PositionSpecification
      (positions_expected : gset string)
      (number_of_last_experiences_to_be_checked : option Z)
  | WorkExperienceLengthSpecification
      (years_of_experience_expected : Q)
      (comparison_operand : string)
      (number_of_last_experiences_to_be_checked : Z).

Definition and_ (self other : Specification) : Specification :=
  AndSpecification self other.

(** [candidate.get_n_last_experiences(n)] where [n] may be [None]: the
    comparison [len(...) <= None] raises [TypeError]. *)
Definition last_experiences (candidate : Profile) (n : option Z)
  : result (list Experience) :=
  match n with
  | Some n' => get_n_last_experiences candidate n'
  | None => Err TypeError
  end.

Definition duration (experience : Experience) : option Z :=
  end_ ← ends_at experience; Some (end_ - starts_at experience).

Fixpoint is_satisfied_by (self : Specification) (candidate : Profile) : M bool :=
  match self with
  | AndSpecification first second =>
      (* [a and b]: [b] is evaluated only when [a] is true *)
      is_satisfied_by first candidate ≫= fun a : bool =>
      if a then is_satisfied_by second candidate else mret false
  | EmployerNameSpecification companies_expected n =>
      experiences_to_be_checked ← lift (get_n_last_experiences candidate n);
      let employer_names :=
        utils.LowerCaseFrozenSet (company_name <$> experiences_to_be_checked) in
      if negb (size (employer_names ∩ companies_expected) =? 0)%nat
      then mret true
      else print (DidNotWorkFor (first_name candidate) (last_name candidate)
                                companies_expected n) ;;
           mret false
  | LocationSpecification expected_locations =>
      if bool_decide (country (profile_location candidate) ∈ expected_locations)
         || bool_decide (city (profile_location candidate) ∈ expected_locations)
      then mret true
      else print (DoesNotLiveThere (first_name candidate) (last_name candidate)) ;;
           mret false
  | TotalWorkExperienceSpecification years_of_experience_expected operand overlaps =>
      total_years_of_experience ← lift (count_years_of_experience candidate overlaps);
      lift (utils.comparison_functions operand) ≫= fun compare : Q → Q → bool =>
      if compare total_years_of_experience years_of_experience_expected
      then mret true
      else print (WorkedForNot (first_name candidate) (last_name candidate)
                               operand years_of_experience_expected) ;;
           mret false
  | SkillsSpecification expected_skills number_of_hits =>
      let skills_to_be_checked := utils.LowerCaseFrozenSet (profile_skills candidate) in
      if utils.has_intersection_or_is_subset skills_to_be_checked expected_skills
                                             number_of_hits
      then mret true
      else print (LacksSkillSet (first_name candidate) (last_name candidate)) ;;
           mret false
  | SkillsAtWorkSpecification expected_skills n number_of_hits =>
      experiences_to_be_checked ← lift (last_experiences candidate n);
      let skills_to_be_checked :=
        utils.LowerCaseFrozenSet (experiences_to_be_checked ≫= skills) in
      if utils.has_intersection_or_is_subset skills_to_be_checked expected_skills
                                             number_of_hits
      then mret true
      else print (LacksSkillSetAtWork (first_name candidate) (last_name candidate)) ;;
           mret false
  | PositionSpecification positions_expected n =>
      experiences_to_be_checked ← lift (last_experiences candidate n);
      let positions_held :=
        utils.LowerCaseFrozenSet (job_title <$> experiences_to_be_checked) in
      if negb (size (positions_held ∩ positions_expected) =? 0)%nat
      then mret true
      else print (DidNotOccupy positions_expected n) ;;
           mret false
  | WorkExperienceLengthSpecification years_of_experience_expected operand n =>
      last_n_experiences ← lift (get_n_last_experiences candidate n);
      longest_experience ← lift (max_with_key duration last_n_experiences);
      longest_experience_in_days ←
        lift (match duration longest_experience with
              | Some d => Ok d
              | None => Err TypeError
              end);
      let longest_experience_in_years :=
        tenths (round_tenths longest_experience_in_days
                             constants.NUMBER_OF_DAYS_IN_ONE_YEAR) in
      lift (utils.comparison_functions operand) ≫= fun compare : Q → Q → bool =>
      if compare longest_experience_in_years years_of_experience_expected
      then mret true
      else print (WorkedForNotDuring operand years_of_experience_expected n) ;;
           mret false
  end.

(** The value of the key ['name']: a string for [employer], a list of
    strings for the other criteria. *)
Inductive name_value : Type :=
  | NameStr (s : string)
  | NameList (l : list string).

(** A criterion's parameters: a [dict] with the keys the factory reads,
    each present or not, with values of the documented types. *)
Record criteria_value : Type := {
  name : option name_value;
  check_last_n_experiences : option Z;
  countries : option (list string);
  cities : option (list string);
  years : option Q;
  comparison_operand : option string;
  number_of_hits : option Z;
}.

(** [criteria_value[key]]: [KeyError] when the key is absent. *)
Definition getitem {A} (key : string) (field : option A) : M A :=
  match field with
  | Some v => mret v
  | None => raise (KeyError key)
  end.

(** [LowerCaseFrozenSet(criteria_value['name'])]: iterating over a string
    yields its characters. *)
Definition lower_case_names (v : name_value) : gset string :=
  match v with
  | NameStr s => utils.LowerCaseFrozenSet (chars s)
  | NameList l => utils.LowerCaseFrozenSet l
  end.

(** The body of [for index, country in enumerate(criteria_value['countries'])].
    It ends in [return], whether or not the country is the token. *)
Definition location_round (all_countries : list string) (index : nat) (country : string)
  : Specification :=
  let countries := list_to_set all_countries in
  let countries :=
    if decide (upper country = "EU"%string)
    then list_to_set (take index all_countries)
           ∪ constants.EU_COUNTRIES
           ∪ list_to_set (drop (index + 1) all_countries)
    else countries in
  LocationSpecification countries.

Definition specification_factory (criteria_name : string) (value : criteria_value)
  : M (option Specification) :=
  match check_last_n_experiences value with
  | Some n => if n <? 1 then raise (ValueError (WindowBelowOne n)) else mret tt
  | None => mret tt
  end ;;
  if decide (criteria_name = "employer"%string) then
    name_ ← getitem "name" (name value);
    companies_expected ←
      match name_ with
      | NameStr s =>
          if decide (s = "FAANG"%string) then mret constants.FAANG
          else mret (utils.LowerCaseFrozenSet [s])
      | NameList _ => raise TypeError   (* a list is not hashable *)
      end;
    n ← getitem "check_last_n_experiences" (check_last_n_experiences value);
    mret (Some (EmployerNameSpecification companies_expected n))
  else if decide (criteria_name = "location"%string) then
    countries_ ← getitem "countries" (countries value);
    match countries_ with
    | [] =>
        cities_ ← getitem "cities" (cities value);
        match cities_ with
        | [] => raise (ValueError NoCountryNoCity)
        | _ :: _ => mret (Some (LocationSpecification (list_to_set cities_)))
        end
    | country :: _ =>
        (* the first round of the loop returns *)
        mret (Some (location_round countries_ 0 country))
    end
  else if decide (criteria_name = "experience_total"%string) then
    years_ ← getitem "years" (years value);
    operand ← getitem "comparison_operand" (comparison_operand value);
    mret (Some (TotalWorkExperienceSpecification years_ operand false))
  else if decide (criteria_name = "skills"%string) then
    name_ ← getitem "name" (name value);
    mret (Some (SkillsSpecification (lower_case_names name_) (number_of_hits value)))
  else if decide (criteria_name = "skills_at_work"%string) then
    name_ ← getitem "name" (name value);
    mret (Some (SkillsAtWorkSpecification (lower_case_names name_)
                                          (check_last_n_experiences value)
                                          (number_of_hits value)))
  else if decide (criteria_name = "position"%string) then
    name_ ← getitem "name" (name value);
    mret (Some (PositionSpecification (lower_case_names name_)
                                      (check_last_n_experiences value)))
  else if decide (criteria_name = "duration_of_employment"%string) then
    years_ ← getitem "years" (years value);
    operand ← getitem "comparison_operand" (comparison_operand value);
    n ← getitem "check_last_n_experiences" (check_last_n_experiences value);
    mret (Some (WorkExperienceLengthSpecification years_ operand n))
  else
    print (CriteriaNotSupported criteria_name) ;;
    mret None.

(** The [for] loop over [target_profile_criteria.items()], in insertion
    order; [specifications] is the list built so far. *)
Fixpoint build_specifications (items : list (string * criteria_value))
    (specifications : list Specification) : M (list Specification) :=
  match items with
  | [] => mret specifications
  | (criteria_name, value) :: items' =>
      specification ← specification_factory criteria_name value;
      build_specifications items'
        match specification with
        | Some s => specifications ++ [s]
        | None => specifications
        end
  end.

Definition chain_specifications_for_position
    (target_profile_criteria : list (string * criteria_value)) : M Specification :=
  specifications ← build_specifications target_profile_criteria [];
  match specifications !! 0%nat with
  | None => raise (ValueError NoValidCriteria)
  | Some target_specification =>
      mret (fold_left
              (fun target i =>
                 match specifications !! i with
                 | Some s => and_ target s
                 | None => target
                 end)
              (seq 1 (length specifications - 1))
              target_specification)
  end.

End specifications.

(** * Auxiliary definitions used by the statements and proofs *)

Import utils profile_schema specifications.

(** [merge_intervals] as a recursion on its input: [current] is the last
    interval of the list under construction. *)
Fixpoint merge_from (current : interval) (rest : list interval) : list interval :=
  match rest with
  | [] => [current]
  | (start, end_) :: rest' =>
      if start <=? current.2
      then merge_from (current.1, Z.max current.2 end_) rest'
      else current :: merge_from (start, end_) rest'
  end.

(** Consecutive intervals are disjoint and do not touch. *)
Fixpoint gaps (l : list interval) : Prop :=
  match l with
  | a :: (b :: _) as l' => a.2 < b.1 ∧ gaps l'
  | _ => True
  end.

Fixpoint sorted_by_start (l : list interval) : bool :=
  match l with
  | a :: (b :: _) as l' => (a.1 <=? b.1) && sorted_by_start l'
  | _ => true
  end.

(** Every experience has an end date, not before its start. *)
Definition well_dated (experience : Experience) : Prop :=
  ∃ end_, ends_at experience = Some end_ ∧ starts_at experience ≤ end_.

Definition dated (experience : Experience) : bool :=
  bool_decide (is_Some (ends_at experience)).

(** The date an experience ended, for experiences that have one. *)
Definition end_of (experience : Experience) : Z := default 0 (ends_at experience).

(** ** Sample data *)

Definition sample_intervals : list interval :=
  [(735434, 736985); (736985, 737681); (737350, 738630); (738700, 738800)].

Definition somewhere : Location := {| city := "Barcelona"; country := "Spain" |}.

Definition job (company title : string) (starts : Z) (ends : option Z) : Experience :=
  {| company_name := company; job_title := title; description := "";
     skills := []; starts_at := starts; ends_at := ends; location := somewhere |}.

Definition candidate_with (l : list Experience) : Profile :=
  {| first_name := "Sophia"; last_name := "Garcia"; profile_skills := ["Figma"; "Miro"];
     profile_description := ""; profile_location := somewhere; experiences := l |}.

(** Two entries that start on 2020-01-01 and end on 2019-01-01, one after
    the other, then a job from 2010-01-01 to 2020-01-01. *)
Definition two_bad_then_good : list Experience :=
  [ job "Acme" "Intern" 737425 (Some 737060);
    job "Initech" "Clerk" 737425 (Some 737060);
    job "Glovo" "Designer" 733773 (Some 737425) ].

(** An ill-dated entry followed by an ongoing job, which has no end date. *)
Definition bad_then_ongoing : list Experience :=
  [ job "Acme" "Intern" 737425 (Some 737060);
    job "Initech" "Clerk" 737425 None ].

(** What the validator's loop does, as a recursion on the entries not yet
    visited: an entry that is dropped takes the next one with it out of the
    loop's sight, since the list closes up under a position that moves on. *)
Fixpoint validated_from (today : Z) (first last : string) (l : list Experience)
  : list message * list Experience :=
  match l with
  | [] => ([], [])
  | experience :: rest =>
      let experience := with_end_date today experience in
      if default today (ends_at experience) <=? starts_at experience
      then
        let warning :=
          ExperienceIgnored first last (job_title experience) (company_name experience) in
        match rest with
        | [] => ([warning], [])
        | unvisited :: rest' =>
            let '(log, r) := validated_from today first last rest' in
            (warning :: log, unvisited :: r)
        end
      else
        let '(log, r) := validated_from today first last rest in
        (log, experience :: r)
  end.

(** An experience as the data model wants it: it has an end date, later
    than its start. *)
Definition in_order (experience : Experience) : Prop :=
  ∃ end_, ends_at experience = Some end_ ∧ starts_at experience < end_.

(** The candidate of the test suite: BlaBlaCar from 2019-06-01 to
    2022-04-01, listed first, and Glovo from 2017-09-01 to 2019-04-01. *)
Definition blablacar : Experience :=
  {| company_name := "BlaBlaCar"; job_title := "UX Designer"; description := "";
     skills := ["Figma"; "UX-research"; "Miro"];
     starts_at := 737211; ends_at := Some 738246; location := somewhere |}.

Definition glovo : Experience :=
  {| company_name := "Glovo"; job_title := "Product Designer"; description := "";
     skills := ["Sketch"; "UX-research"];
     starts_at := 736573; ends_at := Some 737150; location := somewhere |}.

Definition POTENTIAL_CANDIDATE : Profile := candidate_with [blablacar; glovo].

Definition lives_in_russia : Specification :=
  LocationSpecification {[ "Russian Federation" ]}.

Definition worked_for_nasa : Specification :=
  EmployerNameSpecification (LowerCaseFrozenSet ["NASA"]) 15.

(** The hit rule as the code applies it: a hit count of [0] counts as no hit
    count at all. *)
Definition hit_rule (evaluated expected : gset string) (number_of_hits : option Z) : Prop :=
  match number_of_hits with
  | Some k =>
      if decide (k = 0) then expected ⊆ evaluated
      else Z.of_nat (size (evaluated ∩ expected)) = k
  | None => expected ⊆ evaluated
  end.

(** A [location] criterion with the two lists and nothing else. *)
Definition location_criteria (countries_ cities_ : list string) : criteria_value :=
  {| name := None; check_last_n_experiences := None;
     countries := Some countries_; cities := Some cities_;
     years := None; comparison_operand := None; number_of_hits := None |}.

(** The same criterion with another value, or none, under the key ['cities']. *)
Definition with_cities (value : criteria_value) (cities_ : option (list string))
  : criteria_value :=
  {| name := name value; check_last_n_experiences := check_last_n_experiences value;
     countries := countries value; cities := cities_;
     years := years value; comparison_operand := comparison_operand value;
     number_of_hits := number_of_hits value |}.

(** The check on ['check_last_n_experiences'] lets the criterion through. *)
Definition window_accepted (value : criteria_value) : bool :=
  match check_last_n_experiences value with
  | Some n => 1 <=? n
  | None => true
  end.

(** The set the factory expects for a non-empty list of countries: only a
    token in first place is expanded. *)
Definition expected_of_countries (first_country : string) (others : list string)
  : gset string :=
  if decide (upper first_country = "EU"%string)
  then constants.EU_COUNTRIES ∪ list_to_set others
  else list_to_set (first_country :: others).

Definition lives_in (city_ country_ : string) : Profile :=
  {| first_name := "Sophia"; last_name := "Garcia"; profile_skills := [];
     profile_description := ""; profile_location := {| city := city_; country := country_ |};
     experiences := [] |}.

(** What the factory returns for the entries of a configuration, in order;
    the exception of the first entry on which it raises. *)
Fixpoint factory_outcomes (items : list (string * criteria_value))
  : result (list (option Specification)) :=
  match items with
  | [] => Ok []
  | (criteria_name, value) :: items' =>
      r ← outcome (specification_factory criteria_name value);
      rs ← factory_outcomes items';
      Ok (r :: rs)
  end.

(** What the factory prints for the entries of a configuration, up to and
    including the first entry on which it raises. *)
Fixpoint factory_printed (items : list (string * criteria_value)) : list message :=
  match items with
  | [] => []
  | (criteria_name, value) :: items' =>
      let m := specification_factory criteria_name value in
      match outcome m with
      | Ok _ => printed m ++ factory_printed items'
      | Err _ => printed m
      end
  end.

(** The specifications among the factory's results, [None] left out. *)
Definition built_specifications (rs : list (option Specification)) : list Specification :=
  omap id rs.

Definition skills_criteria (names : list string) : criteria_value :=
  {| name := Some (NameList names); check_last_n_experiences := None;
     countries := None; cities := None;
     years := None; comparison_operand := None; number_of_hits := None |}.

Definition employer_criteria (employer : string) (n : Z) : criteria_value :=
  {| name := Some (NameStr employer); check_last_n_experiences := Some n;
     countries := None; cities := None;
     years := None; comparison_operand := None; number_of_hits := None |}.

(** A configuration with a skills criterion, then an employer criterion that
    looks at the last zero experiences. *)
Definition skills_then_window_zero : list (string * criteria_value) :=
  [ ("skills", skills_criteria ["Figma"]); ("employer", employer_criteria "NASA" 0) ]%string.

(** A configuration with a name the factory does not know between two it
    knows. *)
Definition known_unknown_known : list (string * criteria_value) :=
  [ ("skills", skills_criteria ["Figma"]);
    ("salary", skills_criteria []);
    ("location", location_criteria ["EU"] []);
    ("employer", employer_criteria "FAANG" 2) ]%string.

(** Order of a list by a key. *)
Definition ascending {A} (key : A → Z) : list A → Prop :=
  StronglySorted (fun a b => key a ≤ key b).

Definition descending {A} (key : A → Z) : list A → Prop :=
  StronglySorted (fun a b => key b ≤ key a).

(** Runs the printing and raising steps of a computation that is known. *)
Ltac run :=
  repeat (unfold mbind, M_mbind, mret, M_ret, getitem, raise, lift, print; simpl).

(** ** Notions used by the further properties *)

(** A day lies in one of the intervals, ends included. *)
Definition covers (l : list interval) (x : Z) : Prop :=
  Exists (fun iv => iv.1 ≤ x ≤ iv.2) l.

(** No interval ends before it starts. *)
Definition forward (l : list interval) : Prop :=
  Forall (fun iv => iv.1 ≤ iv.2) l.

Definition forwardb (l : list interval) : bool :=
  forallb (fun iv => iv.1 <=? iv.2) l.

Fixpoint gapsb (l : list interval) : bool :=
  match l with
  | a :: (b :: _) as l' => (a.2 <? b.1) && gapsb l'
  | _ => true
  end.

(** The relation an operand of the configuration stands for. *)
Definition operand_holds (operand : string) (x y : Q) : Prop :=
  (operand = ">"%string ∧ (y < x)%Q)
  ∨ (operand = ">="%string ∧ (y <= x)%Q)
  ∨ (operand = "<"%string ∧ (x < y)%Q)
  ∨ (operand = "<="%string ∧ (x <= y)%Q)
  ∨ (operand = "=="%string ∧ (x == y)%Q).

Definition operands : list string := [">"; ">="; "<"; "<="; "=="]%string.


(** The validator's test on an entry it visits: with today standing in for
    a missing end date, the entry does not start before it ends. *)
Definition out_of_order (today : Z) (experience : Experience) : bool :=
  default today (ends_at experience) <=? starts_at experience.

Definition in_orderb (experience : Experience) : bool :=
  match ends_at experience with
  | Some end_ => starts_at experience <? end_
  | None => false
  end.

(** No entry that the test rejects is directly followed by an entry that is
    not in order as it stands. *)
Fixpoint shielded (today : Z) (l : list Experience) : bool :=
  match l with
  | a :: (b :: _) as l' => (negb (out_of_order today a) || in_orderb b) && shielded today l'
  | _ => true
  end.

(** A job that is still going on, then a finished one. *)
Definition ongoing_then_finished : list Experience :=
  [ job "Acme" "Designer" 737425 None; job "Glovo" "Designer" 733773 (Some 737425) ].

(** An ill-dated entry between two well-dated ones. *)
Definition good_bad_good : list Experience :=
  [ job "Glovo" "Designer" 733773 (Some 737425);
    job "Acme" "Intern" 737425 (Some 737060);
    job "Initech" "Clerk" 737500 (Some 738000) ].

(** The specifications of a list evaluated one after the other, up to the
    first that is not satisfied. *)
Fixpoint satisfied_by_all (specs : list Specification) (candidate : Profile) : M bool :=
  match specs with
  | [] => mret true
  | s :: specs' =>
      is_satisfied_by s candidate ≫= fun b : bool =>
      if b then satisfied_by_all specs' candidate else mret false
  end.

Definition lives_in_spain : Specification := LocationSpecification {[ "Spain" ]}.

Definition has_figma : Specification :=
  SkillsSpecification (LowerCaseFrozenSet ["Figma"]) None.

(** A candidate who worked at one company, from 2019-06-01 to 2022-04-01. *)
Definition worked_at (company : string) : Profile :=
  candidate_with [job company "Engineer" 737211 (Some 738246)].

(** The values of the enumeration [SelectionCriteria]. *)
Definition criteria_names : list string :=
  [ "employer"; "location"; "experience_total"; "skills"; "skills_at_work";
    "position"; "duration_of_employment" ]%string.

Definition lower_cased (X : gset string) : Prop := ∀ x, x ∈ X → lower x = x.

(** What holds of a specification that comes out of the factory. *)
Definition well_built (s : Specification) : Prop :=
  match s with
  | AndSpecification _ _ => False
  | EmployerNameSpecification companies n => lower_cased companies ∧ 1 ≤ n
  | LocationSpecification expected => expected ≠ ∅
  | TotalWorkExperienceSpecification _ _ overlaps => overlaps = false
  | SkillsSpecification expected _ => lower_cased expected
  | SkillsAtWorkSpecification expected n _ =>
      lower_cased expected ∧ ∀ n', n = Some n' → 1 ≤ n'
  | PositionSpecification expected n =>
      lower_cased expected ∧ ∀ n', n = Some n' → 1 ≤ n'
  | WorkExperienceLengthSpecification _ _ n => 1 ≤ n
  end.


(** ** main.py: the loop over the profiles *)

Module main.

(** A line of output of the last loop of [main]: a rejection message printed
    by the evaluation, or the line of a profile that matches. *)
Inductive line : Type :=
  | Explained (m : message)
  | Matched (first_name last_name : string).

(** [for profile in available_profiles: if
    target_specification.is_satisfied_by(profile): print(...)].  An exception
    raised by an evaluation is not caught: it ends the loop. *)
Fixpoint perform_checks (target_specification : Specification)
    (available_profiles : list Profile) : list line * result unit :=
  match available_profiles with
  | [] => ([], Ok tt)
  | profile :: rest =>
      let evaluation := is_satisfied_by target_specification profile in
      match outcome evaluation with
      | Err e => (Explained <$> printed evaluation, Err e)
      | Ok satisfied =>
          let '(lines, r) := perform_checks target_specification rest in
          ((Explained <$> printed evaluation)
             ++ (if satisfied
                 then [Matched (first_name profile) (last_name profile)]
                 else [])
             ++ lines, r)
      end
  end.

End main.

(** * Properties *)

(** ** The stable sort behind [sorted] *)

Section SortFacts.
Context {A : Type} (key : A → Z).

Lemma insert_sorted_perm (x : A) (l : list A) : insert_sorted key x l ≡ₚ x :: l.
Proof.
  induction l as [|y l IH]; simpl; [done|].
  destruct (key x <=? key y); [done|].
  rewrite IH. apply Permutation_swap.
Qed.

Lemma stable_sort_perm (l : list A) : stable_sort key l ≡ₚ l.
Proof.
  induction l as [|x l IH]; simpl; [done|].
  rewrite insert_sorted_perm. by f_equiv.
Qed.

Lemma stable_sort_length (l : list A) : length (stable_sort key l) = length l.
Proof. by rewrite stable_sort_perm. Qed.

Lemma insert_sorted_ascending (x : A) (l : list A) :
  ascending key l → ascending key (insert_sorted key x l).
Proof.
  unfold ascending. induction 1 as [|y l Hl IH Hy]; simpl.
  - repeat constructor.
  - destruct (Z.leb_spec (key x) (key y)).
    + constructor; [by constructor|].
      constructor; [done|]. eapply Forall_impl; [exact Hy|]. simpl. lia.
    + constructor; [done|].
      rewrite insert_sorted_perm. constructor; [lia|done].
Qed.

Lemma stable_sort_ascending (l : list A) : ascending key (stable_sort key l).
Proof.
  induction l as [|x l IH]; simpl; [constructor|].
  by apply insert_sorted_ascending.
Qed.

Lemma ascending_reverse (l : list A) : ascending key l → descending key (reverse l).
Proof.
  unfold ascending, descending. induction 1 as [|x l Hl IH Hx].
  - constructor.
  - rewrite reverse_cons. apply StronglySorted_app_2; [|done|repeat constructor].
    intros a b Ha Hb. apply list_elem_of_singleton in Hb as ->.
    rewrite elem_of_reverse in Ha. rewrite Forall_forall in Hx. exact (Hx _ Ha).
Qed.

Lemma descending_take (n : nat) (l : list A) : descending key l → descending key (take n l).
Proof.
  unfold descending. intros H. revert n.
  induction H as [|x l Hl IH Hx]; intros [|n]; simpl; try constructor.
  - apply IH.
  - by apply Forall_take.
Qed.

(** In a descending list every element of a prefix is at least as large as
    every element of the rest. *)
Lemma descending_take_drop (n : nat) (l : list A) (x y : A) :
  descending key l → x ∈ take n l → y ∈ drop n l → key y ≤ key x.
Proof.
  unfold descending. intros H Hx Hy.
  rewrite <- (take_drop n l) in H.
  by apply (StronglySorted_app_1_elem_of _ _ _ _ _ H).
Qed.
End SortFacts.

(** ** Interval merging *)

Lemma fold_merge_step (rest : list interval) (closed : list interval) (current : interval) :
  (let '(closed', last) := fold_left merge_step rest (closed, current) in closed' ++ [last])
  = closed ++ merge_from current rest.
Proof.
  revert closed current.
  induction rest as [|[start end_] rest IH]; intros closed [previous_start previous_end];
    simpl; [done|].
  destruct (start <=? previous_end).
  - apply IH.
  - rewrite IH. by rewrite <- app_assoc.
Qed.

Lemma merge_intervals_cons (first : interval) (rest : list interval) :
  merge_intervals (first :: rest) = Ok (merge_from first rest).
Proof.
  unfold merge_intervals.
  pose proof (fold_merge_step rest [] first) as H.
  destruct (fold_left merge_step rest ([], first)) as [closed last].
  by rewrite H.
Qed.

(** The loop never changes the start of the interval it is extending. *)
Lemma merge_from_head (current : interval) (rest : list interval) :
  ∃ end_ tail, merge_from current rest = (current.1, end_) :: tail.
Proof.
  revert current. induction rest as [|[start end_] rest IH]; intros [s e]; simpl.
  - by eexists _, _.
  - destruct (start <=? e).
    + apply (IH (s, Z.max e end_)).
    + by eexists _, _.
Qed.

Lemma merge_from_gaps (current : interval) (rest : list interval) :
  gaps (merge_from current rest).
Proof.
  revert current. induction rest as [|[start end_] rest IH]; intros [s e]; simpl; [done|].
  destruct (Z.leb_spec start e) as [Hle|Hlt].
  - apply IH.
  - specialize (IH (start, end_)).
    destruct (merge_from_head (start, end_) rest) as (end' & tail & Heq).
    rewrite Heq in *. simpl in *. split; [lia|done].
Qed.

(** A list whose intervals are already apart is left as it is. *)
Lemma merge_from_apart (current : interval) (rest : list interval) :
  gaps (current :: rest) → merge_from current rest = current :: rest.
Proof.
  revert current. induction rest as [|[start end_] rest IH]; intros [s e]; [done|].
  intros [Hlt Hrest]. simpl in *.
  destruct (Z.leb_spec start e); [lia|].
  by rewrite IH.
Qed.

(** Merging a merged list changes nothing; the order of the input plays no
    part in this. *)
Lemma merge_intervals_fixpoint (intervals merged : list interval) :
  merge_intervals intervals = Ok merged → merge_intervals merged = Ok merged.
Proof.
  destruct intervals as [|first rest]; [done|].
  rewrite merge_intervals_cons. intros [= <-].
  pose proof (merge_from_gaps first rest) as Hgaps.
  destruct (merge_from_head first rest) as (end_ & tail & Heq).
  rewrite Heq in *. rewrite merge_intervals_cons.
  by rewrite merge_from_apart.
Qed.

(** C8. [merge_intervals] is idempotent: on a non-empty list of intervals
    sorted ascending by start it returns a list, and applying it to that list
    returns the same list again. *)
Theorem merge_intervals_idempotent (intervals : list interval) :
  intervals ≠ [] →
  sorted_by_start intervals = true →
  ∃ merged,
    merge_intervals intervals = Ok merged ∧ merge_intervals merged = Ok merged.
Proof.
  intros Hne _. destruct intervals as [|first rest]; [done|].
  exists (merge_from first rest). split.
  - apply merge_intervals_cons.
  - apply (merge_intervals_fixpoint (first :: rest)), merge_intervals_cons.
Qed.

Lemma merge_intervals_idempotent_witness :
  sample_intervals ≠ [] ∧ sorted_by_start sample_intervals = true ∧
  ∃ merged,
    merge_intervals sample_intervals = Ok merged ∧ merge_intervals merged = Ok merged.
Proof.
  split; [discriminate|]. split; [reflexivity|].
  apply (merge_intervals_idempotent sample_intervals); [discriminate|reflexivity].
Defined.

(** ** Years of experience *)

Lemma round_tenths_mono (n n' d : Z) :
  0 < d → n ≤ n' → round_tenths n d ≤ round_tenths n' d.
Proof.
  intros Hd Hn. unfold round_tenths.
  assert (10 * n ≤ 10 * n') as Hx by lia.
  pose proof (Z.div_le_mono _ _ d Hd Hx) as Hq.
  pose proof (Z.div_mod (10 * n) d ltac:(lia)) as E.
  pose proof (Z.div_mod (10 * n') d ltac:(lia)) as E'.
  pose proof (Z.mod_pos_bound (10 * n) d Hd) as B.
  pose proof (Z.mod_pos_bound (10 * n') d Hd) as B'.
  set (q := (10 * n) / d) in *. set (q' := (10 * n') / d) in *.
  set (r := (10 * n) mod d) in *. set (r' := (10 * n') mod d) in *.
  destruct (Z.eq_dec q q') as [<-|Hne].
  - assert (r ≤ r') by nia.
    repeat match goal with |- context [?a <? ?b] => destruct (Z.ltb_spec a b) end;
      destruct (Z.even q); lia.
  - assert (q + 1 ≤ q') by lia.
    repeat match goal with |- context [?a <? ?b] => destruct (Z.ltb_spec a b) end;
      repeat match goal with |- context [Z.even ?a] => destruct (Z.even a) end; lia.
Qed.

Lemma tenths_le (a b : Z) : a ≤ b → (tenths a <= tenths b)%Q.
Proof. unfold tenths, Qle. simpl. lia. Qed.

Lemma days_of_from (l : list interval) (a : Z) :
  fold_left (fun days '(start, end_) => days + (end_ - start)) l a = a + days_of l.
Proof.
  unfold days_of. revert a. induction l as [|[s e] l IH]; intros a; simpl; [lia|].
  rewrite (IH (a + _)), (IH (0 + _)). lia.
Qed.

Lemma days_of_cons (iv : interval) (l : list interval) :
  days_of (iv :: l) = (iv.2 - iv.1) + days_of l.
Proof. destruct iv as [s e]. unfold days_of at 1. simpl. by rewrite days_of_from. Qed.

(** Merging never adds days, as long as no interval ends before it starts. *)
Lemma days_of_merge_from (current : interval) (rest : list interval) :
  Forall (fun iv => iv.1 ≤ iv.2) rest →
  days_of (merge_from current rest) ≤ days_of (current :: rest).
Proof.
  intros H. revert current.
  induction H as [|[start end_] rest Hiv Hrest IH]; intros [s e]; simpl; [done|].
  simpl in Hiv.
  destruct (Z.leb_spec start e).
  - specialize (IH (s, Z.max e end_)).
    rewrite !days_of_cons in *. simpl in *. lia.
  - specialize (IH (start, end_)).
    rewrite !days_of_cons in *. simpl in *. lia.
Qed.

Lemma sorted_by_starts_at (self : Profile) :
  _get_experiences_sorted_by self by_starts_at
  = Ok (stable_sort starts_at (experiences self)).
Proof.
  unfold _get_experiences_sorted_by, sorted. simpl.
  replace (forallb _ (experiences self)) with true; [done|].
  symmetry. apply forallb_forall. by intros x _.
Qed.

Lemma intervals_of_well_dated (l : list Experience) :
  Forall well_dated l →
  ∃ ivs, intervals_of l = Ok ivs ∧ Forall (fun iv => iv.1 ≤ iv.2) ivs
         ∧ length ivs = length l.
Proof.
  induction 1 as [|x l (end_ & Hend & Hle) Hl (ivs & Heq & Hivs & Hlen)]; simpl.
  - by exists [].
  - unfold interval_of. rewrite Hend, Heq. simpl.
    exists ((starts_at x, end_) :: ivs). split; [done|]. split; [by constructor|].
    simpl. by rewrite Hlen.
Qed.

(** X17. For a profile that has experiences, each with an end date not before
    its start, the merged count of years is at most the raw one. *)
Lemma count_years_merged_le_raw (self : Profile) :
  experiences self ≠ [] →
  Forall well_dated (experiences self) →
  ∃ merged raw,
    count_years_of_experience self false = Ok merged
    ∧ count_years_of_experience self true = Ok raw
    ∧ (merged <= raw)%Q.
Proof.
  intros Hne Hwd. unfold count_years_of_experience.
  rewrite sorted_by_starts_at. simpl.
  assert (Forall well_dated (stable_sort starts_at (experiences self))) as Hwd'
    by by rewrite stable_sort_perm.
  destruct (intervals_of_well_dated _ Hwd') as (ivs & -> & Hivs & Hlen). simpl.
  rewrite stable_sort_length in Hlen.
  destruct ivs as [|first rest].
  { destruct (experiences self); [done|discriminate]. }
  rewrite merge_intervals_cons. simpl.
  eexists _, _. split; [done|]. split; [done|].
  apply tenths_le, round_tenths_mono; [done|].
  apply days_of_merge_from. by inversion Hivs.
Qed.

(** C1. A profile built from a record with no experiences has none, and for
    it the query with [count_overlapping_experiences=False] calls
    [merge_intervals] on the empty list: the [IndexError] of [intervals[0]]
    comes out of the query.  The same profile gets [0.0] years when overlaps
    are counted. *)
Theorem count_years_of_experience_no_experiences (today : Z) (raw : Profile) :
  experiences raw = [] →
  let self := (new_Profile today raw).2 in
  experiences self = []
  ∧ count_years_of_experience self false = Err IndexError
  ∧ count_years_of_experience self true = Ok (tenths 0).
Proof.
  intros Hnone. unfold new_Profile, check_start_date_precedes_end_date.
  rewrite Hnone. simpl.
  unfold count_years_of_experience, _get_experiences_sorted_by. simpl.
  by repeat split.
Qed.

Lemma count_years_of_experience_no_experiences_witness :
  experiences (candidate_with []) = []
  ∧ experiences (new_Profile 739000 (candidate_with [])).2 = []
  ∧ count_years_of_experience (new_Profile 739000 (candidate_with [])).2 false
    = Err IndexError
  ∧ count_years_of_experience (new_Profile 739000 (candidate_with [])).2 true
    = Ok (tenths 0).
Proof.
  split; [reflexivity|].
  apply (count_years_of_experience_no_experiences 739000 (candidate_with [])).
  reflexivity.
Defined.

(** C7. On the profile built from [two_bad_then_good] the validator leaves
    the second ill-dated entry in place; the merged count is then 10.0 years
    and the raw count 9.0 years, so the merged count exceeds the raw one. *)
Theorem count_years_merged_exceeds_raw (today : Z) :
  let self := (new_Profile today (candidate_with two_bad_then_good)).2 in
  experiences self
  = [job "Initech" "Clerk" 737425 (Some 737060); job "Glovo" "Designer" 733773 (Some 737425)]
  ∧ count_years_of_experience self false = Ok (tenths 100)
  ∧ count_years_of_experience self true = Ok (tenths 90)
  ∧ ¬ (tenths 100 <= tenths 90)%Q.
Proof.
  repeat split.
  intros H. unfold tenths, Qle in H. simpl in H. lia.
Qed.

(** ** The validator of [Profile] *)

Section Validator.
Context (today : Z) (first last : string).

(** Once the fuel covers the entries from [idx] on, more fuel changes
    nothing: the loop has stopped by itself. *)
Lemma validator_loop_fuel (fuel fuel' idx : nat) (l : list Experience) :
  (length l ≤ idx + fuel)%nat → (length l ≤ idx + fuel')%nat →
  validator_loop today first last fuel idx l
  = validator_loop today first last fuel' idx l.
Proof.
  revert fuel' idx l.
  induction fuel as [|fuel IH]; intros [|fuel'] idx l H H'; simpl; try done.
  - rewrite lookup_ge_None_2; [done|lia].
  - rewrite lookup_ge_None_2; [done|lia].
  - destruct (l !! idx) as [experience|] eqn:Hidx; [|done].
    apply lookup_lt_Some in Hidx.
    destruct (_ <=? _).
    + match goal with |- context [delete idx ?l'] =>
        assert (length (delete idx l') = length l - 1)%nat as Hlen
      end.
      { rewrite length_delete, length_insert; [done|].
        apply lookup_lt_is_Some. by rewrite length_insert. }
      rewrite (IH fuel'); [done|lia..].
    + apply IH; rewrite length_insert; lia.
Qed.

Lemma validator_loop_spec (fuel : nat) (pre l : list Experience) :
  (length l ≤ fuel)%nat →
  validator_loop today first last fuel (length pre) (pre ++ l)
  = ((validated_from today first last l).1,
     pre ++ (validated_from today first last l).2).
Proof.
  revert pre l. induction fuel as [|fuel IH]; intros pre l Hfuel.
  { destruct l; [done|simpl in Hfuel; lia]. }
  destruct l as [|experience rest]; simpl.
  { rewrite lookup_ge_None_2; [done|]. rewrite length_app. simpl. lia. }
  rewrite list_lookup_middle by done.
  rewrite insert_app_r_alt, Nat.sub_diag by done. simpl.
  destruct (_ <=? _).
  - rewrite delete_middle by done. destruct rest as [|unvisited rest'].
    + rewrite (validator_loop_fuel fuel 0); [|rewrite length_app; simpl; lia..].
      simpl. by rewrite app_nil_r.
    + specialize (IH (pre ++ [unvisited]) rest').
      rewrite length_app, <- app_assoc in IH. simpl in IH.
      rewrite Nat.add_1_r in IH. rewrite IH by (simpl in Hfuel; lia).
      destruct (validated_from today first last rest') as [log r]. simpl.
      by rewrite <- app_assoc.
  - specialize (IH (pre ++ [with_end_date today experience]) rest).
    rewrite length_app, <- app_assoc in IH. simpl in IH.
    rewrite Nat.add_1_r in IH. rewrite IH by (simpl in Hfuel; lia).
    destruct (validated_from today first last rest) as [log r]. simpl.
    by rewrite <- app_assoc.
Qed.

Lemma check_start_date_precedes_end_date_spec (l : list Experience) :
  check_start_date_precedes_end_date today first last l
  = validated_from today first last l.
Proof.
  unfold check_start_date_precedes_end_date.
  pose proof (validator_loop_spec (length l) [] l) as H. simpl in H.
  rewrite H by done.
  by destruct (validated_from today first last l).
Qed.
End Validator.

(** C2. Two ill-dated entries in a row: the validator drops the first and
    never looks at the second, which stays in the profile with its end before
    its start.  In the same way an ongoing job that follows a dropped entry
    keeps [None] as its end date. *)
Theorem validator_skips_entry_after_dropped_one (today : Z) :
  (check_start_date_precedes_end_date today "Sophia" "Garcia" two_bad_then_good
   = ([ExperienceIgnored "Sophia" "Garcia" "Intern" "Acme"],
      [job "Initech" "Clerk" 737425 (Some 737060);
       job "Glovo" "Designer" 733773 (Some 737425)])
   ∧ ¬ in_order (job "Initech" "Clerk" 737425 (Some 737060)))
  ∧ (check_start_date_precedes_end_date today "Sophia" "Garcia" bad_then_ongoing
     = ([ExperienceIgnored "Sophia" "Garcia" "Intern" "Acme"],
        [job "Initech" "Clerk" 737425 None])
     ∧ ¬ in_order (job "Initech" "Clerk" 737425 None)).
Proof.
  repeat split.
  - intros (end_ & [= <-] & Hlt). simpl in Hlt. lia.
  - by intros (end_ & [=] & _).
Qed.

(** ** The last experiences of a profile *)

Lemma slice_backwards_last {A} (l : list A) (n : Z) :
  0 ≤ n < Z.of_nat (length l) →
  slice_backwards l (-1) (- n - 1) = take (Z.to_nat n) (reverse l).
Proof.
  intros Hn. unfold slice_backwards, adjust_index.
  repeat match goal with |- context [?a <? ?b] => destruct (Z.ltb_spec a b); try lia end.
  replace (-1 + Z.of_nat (length l) + 1) with (Z.of_nat (length l)) by lia.
  rewrite Nat2Z.id, firstn_all. f_equal. lia.
Qed.

Lemma sorted_by_ends_at (self : Profile) :
  forallb dated (experiences self) = true →
  _get_experiences_sorted_by self by_ends_at
  = Ok (stable_sort end_of (experiences self)).
Proof.
  intros H. unfold _get_experiences_sorted_by, sorted.
  change (forallb _ (experiences self)) with (forallb dated (experiences self)).
  by rewrite H.
Qed.

(** X14. What [get_n_last_experiences] returns.  For a profile whose experiences
    all have an end date and for [n >= 0], it returns a list [out] that, with
    the experiences [rest] left out, makes up the experiences of the profile.
    When [n] is at least their number nothing is left out and [out] is in
    ascending order of [ends_at], oldest first.  When [n] is smaller, [out]
    has [n] elements, is in descending order of [ends_at], and no experience
    left out ended later than one in [out]. *)
Lemma get_n_last_experiences_spec (self : Profile) (n : Z) :
  forallb dated (experiences self) = true →
  0 ≤ n →
  ∃ out rest,
    get_n_last_experiences self n = Ok out
    ∧ experiences self ≡ₚ out ++ rest
    ∧ (Z.of_nat (length (experiences self)) ≤ n →
       rest = [] ∧ ascending end_of out)
    ∧ (n < Z.of_nat (length (experiences self)) →
       length out = Z.to_nat n
       ∧ descending end_of out
       ∧ ∀ x y, x ∈ out → y ∈ rest → end_of y ≤ end_of x).
Proof.
  intros Hdated Hn. unfold get_n_last_experiences.
  rewrite (sorted_by_ends_at _ Hdated). simpl.
  set (sorted_experiences := stable_sort end_of (experiences self)).
  assert (length sorted_experiences = length (experiences self)) as Hlen
    by apply stable_sort_length.
  assert (descending end_of (reverse sorted_experiences)) as Hdesc
    by apply ascending_reverse, stable_sort_ascending.
  rewrite Hlen.
  destruct (Z.leb_spec (Z.of_nat (length (experiences self))) n) as [Hall|Hfew].
  - exists sorted_experiences, []. split; [done|]. split.
    + rewrite app_nil_r. symmetry. apply stable_sort_perm.
    + split; [|lia]. intros _. split; [done|]. apply stable_sort_ascending.
  - rewrite slice_backwards_last by lia.
    exists (take (Z.to_nat n) (reverse sorted_experiences)),
           (drop (Z.to_nat n) (reverse sorted_experiences)).
    split; [done|]. split.
    + rewrite take_drop, reverse_Permutation. symmetry. apply stable_sort_perm.
    + split; [lia|]. intros _. split; [|split].
      * rewrite length_take, length_reverse. lia.
      * by apply descending_take.
      * intros x y. by apply descending_take_drop.
Qed.

(** C3. Asked for at least as many experiences as there are, the method
    returns the list sorted by [ends_at] as it is, oldest first: the profile of
    the test suite, asked for its last two experiences, gets Glovo (ended
    2019-04-01) before BlaBlaCar (ended 2022-04-01), which is not the
    descending order the other branch of the method returns. *)
Theorem get_n_last_experiences_oldest_first :
  Z.of_nat (length (experiences POTENTIAL_CANDIDATE)) ≤ 2
  ∧ get_n_last_experiences POTENTIAL_CANDIDATE 2 = Ok [glovo; blablacar]
  ∧ ¬ descending end_of [glovo; blablacar].
Proof.
  split; [simpl; lia|]. split; [reflexivity|].
  intros H. apply StronglySorted_inv in H as [_ H].
  apply Forall_inv in H. unfold end_of in H. simpl in H. lia.
Qed.

(** ** The composite specification *)

Lemma and_is_AndSpecification (self other : Specification) :
  and_ self other = AndSpecification self other.
Proof. reflexivity. Qed.

(** C4, as the code has it.  The composite evaluates its first child.  When
    that child is unsatisfied the composite is unsatisfied and has printed
    what the first child printed: the second child is not evaluated and its
    message is not emitted.  When the first child is satisfied the second is
    evaluated after it, and the composite prints what both printed.  So when
    both children return a verdict, the composite returns their logical AND.
    An exception raised by the first child comes out of the composite. *)
Theorem and_specification_short_circuits
    (first second : Specification) (candidate : Profile) :
  let a := is_satisfied_by first candidate in
  let b := is_satisfied_by second candidate in
  let both := is_satisfied_by (AndSpecification first second) candidate in
  (outcome a = Ok false → both = Run (printed a) (Ok false))
  ∧ (outcome a = Ok true → both = Run (printed a ++ printed b) (outcome b))
  ∧ (∀ e, outcome a = Err e → both = Run (printed a) (Err e))
  ∧ (∀ x y, outcome a = Ok x → outcome b = Ok y →
       outcome both = Ok (x && y)
       ∧ printed both = printed a ++ (if x then printed b else [])).
Proof.
  simpl. unfold mbind, M_mbind.
  destruct (outcome (is_satisfied_by first candidate)) as [[|]|e] eqn:Ha;
    (split; [|split; [|split]]); try done.
  - intros u v [= <-] Hb. simpl. by rewrite Hb.
  - intros _. simpl. by rewrite app_nil_r.
  - intros u v [= <-] _. simpl. by rewrite app_nil_r.
  - by intros e' [= <-].
Qed.

Lemma and_specification_short_circuits_witness :
  outcome (is_satisfied_by lives_in_russia POTENTIAL_CANDIDATE) = Ok false
  ∧ is_satisfied_by (AndSpecification lives_in_russia worked_for_nasa) POTENTIAL_CANDIDATE
    = Run (printed (is_satisfied_by lives_in_russia POTENTIAL_CANDIDATE)) (Ok false).
Proof.
  split; [vm_compute; reflexivity|].
  apply (and_specification_short_circuits lives_in_russia worked_for_nasa
           POTENTIAL_CANDIDATE).
  vm_compute; reflexivity.
Defined.

(** C4, as stated, fails: both children are unsatisfied and each prints its
    message when evaluated alone, yet the composite prints only the message
    of the first. *)
Lemma and_specification_omits_second_message :
  is_satisfied_by lives_in_russia POTENTIAL_CANDIDATE
  = Run [DoesNotLiveThere "Sophia" "Garcia"] (Ok false)
  ∧ is_satisfied_by worked_for_nasa POTENTIAL_CANDIDATE
    = Run [DidNotWorkFor "Sophia" "Garcia" (LowerCaseFrozenSet ["NASA"]) 15] (Ok false)
  ∧ is_satisfied_by (AndSpecification lives_in_russia worked_for_nasa) POTENTIAL_CANDIDATE
    = Run [DoesNotLiveThere "Sophia" "Garcia"] (Ok false).
Proof. by vm_compute. Qed.

(** ** The hit rule *)

Lemma has_intersection_or_is_subset_true
    (evaluated expected : gset string) (number_of_hits : option Z) :
  has_intersection_or_is_subset evaluated expected number_of_hits = true
  ↔ hit_rule evaluated expected number_of_hits.
Proof.
  unfold has_intersection_or_is_subset, hit_rule.
  destruct number_of_hits as [k|]; [|apply bool_decide_eq_true].
  destruct (decide (k = 0)) as [->|Hk]; simpl; [apply bool_decide_eq_true|].
  destruct (Z.eqb_spec k 0); [done|]. simpl. apply Z.eqb_eq.
Qed.

(** C6, as the code has it.  A hit count other than zero is met iff the
    intersection of the evaluated and the expected set has exactly that many
    elements; with no hit count, or with a hit count of zero, the rule is met
    iff the expected set is a subset of the evaluated one.  The Skills
    specification applies it to the lower-cased skills of the profile, the
    SkillsAtWork specification to the lower-cased skills of the last
    experiences. *)
Theorem hit_rule_of_skills_specifications
    (expected : gset string) (number_of_hits n : option Z) (candidate : Profile) :
  (∀ evaluated,
     has_intersection_or_is_subset evaluated expected number_of_hits = true
     ↔ match number_of_hits with
       | Some k =>
           if decide (k = 0) then expected ⊆ evaluated
           else Z.of_nat (size (evaluated ∩ expected)) = k
       | None => expected ⊆ evaluated
       end)
  ∧ (outcome (is_satisfied_by (SkillsSpecification expected number_of_hits) candidate)
     = Ok (has_intersection_or_is_subset
             (LowerCaseFrozenSet (profile_skills candidate)) expected number_of_hits))
  ∧ (outcome (is_satisfied_by (SkillsAtWorkSpecification expected n number_of_hits)
                              candidate)
     = match last_experiences candidate n with
       | Ok checked =>
           Ok (has_intersection_or_is_subset
                 (LowerCaseFrozenSet (checked ≫= skills)) expected number_of_hits)
       | Err e => Err e
       end).
Proof.
  split; [|split].
  - intros evaluated. apply has_intersection_or_is_subset_true.
  - simpl. by destruct (has_intersection_or_is_subset _ _ _).
  - simpl. unfold mbind at 1, M_mbind. simpl.
    destruct (last_experiences candidate n) as [checked|e]; [|done].
    by destruct (has_intersection_or_is_subset _ _ _).
Qed.

(** C6, as stated, fails for a hit count of zero: no expected skill is among
    the evaluated ones, so the intersection has exactly zero elements, yet
    the rule is not met, since the code falls back to the subset test. *)
Lemma hit_count_zero_is_subset_test :
  size (LowerCaseFrozenSet ["Figma"] ∩ LowerCaseFrozenSet ["Sketch"]) = 0%nat
  ∧ has_intersection_or_is_subset
      (LowerCaseFrozenSet ["Figma"]) (LowerCaseFrozenSet ["Sketch"]) (Some 0) = false
  ∧ is_satisfied_by (SkillsSpecification (LowerCaseFrozenSet ["Sketch"]) (Some 0))
                    POTENTIAL_CANDIDATE
    = Run [LacksSkillSet "Sophia" "Garcia"] (Ok false).
Proof. by vm_compute. Qed.

(** ** The factory on a [location] criterion *)

Lemma factory_location_countries
    (value : criteria_value) (first_country : string) (others : list string) :
  window_accepted value = true →
  countries value = Some (first_country :: others) →
  specification_factory "location" value
  = Run [] (Ok (Some (LocationSpecification (expected_of_countries first_country others)))).
Proof.
  unfold window_accepted, specification_factory, expected_of_countries.
  intros Hwindow Hcountries. rewrite Hcountries.
  assert (∀ X Y : gset string, ∅ ∪ X ∪ Y = X ∪ Y) as Hunion
    by (intros X Y; by rewrite (left_id_L ∅ (∪))).
  unfold location_round.
  destruct (check_last_n_experiences value) as [n|]; simpl.
  - destruct (Z.ltb_spec n 1); [apply Z.leb_le in Hwindow; lia|].
    run. repeat case_decide; by rewrite ?Hunion.
  - run. repeat case_decide; by rewrite ?Hunion.
Qed.

Lemma factory_location_cities (value : criteria_value) (cities_ : list string) :
  window_accepted value = true →
  countries value = Some [] →
  cities value = Some cities_ →
  cities_ ≠ [] →
  specification_factory "location" value
  = Run [] (Ok (Some (LocationSpecification (list_to_set cities_)))).
Proof.
  unfold window_accepted, specification_factory.
  intros Hwindow Hcountries Hcities Hne. rewrite Hcountries, Hcities.
  destruct cities_ as [|c cs]; [done|].
  destruct (check_last_n_experiences value) as [n|]; simpl; [|by run].
  destruct (Z.ltb_spec n 1); [apply Z.leb_le in Hwindow; lia|by run].
Qed.

Lemma factory_location_ignores_cities
    (value : criteria_value) (first_country : string) (others : list string)
    (cities_ : option (list string)) :
  countries value = Some (first_country :: others) →
  specification_factory "location" (with_cities value cities_)
  = specification_factory "location" value.
Proof.
  unfold specification_factory. simpl. intros Hcountries. rewrite Hcountries.
  destruct (check_last_n_experiences value) as [n|]; [destruct (n <? 1)|]; by run.
Qed.

Lemma location_not_satisfied (expected : gset string) (candidate : Profile) :
  country (profile_location candidate) ∉ expected →
  city (profile_location candidate) ∉ expected →
  is_satisfied_by (LocationSpecification expected) candidate
  = Run [DoesNotLiveThere (first_name candidate) (last_name candidate)] (Ok false).
Proof.
  intros Hcountry Hcity. simpl.
  by rewrite !bool_decide_eq_false_2.
Qed.

(** C10. For a location criterion that passes the window check: when the
    list of countries is not empty, the factory builds a location
    specification whose expected set comes from the countries alone, and
    builds the same whatever is under ['cities']; a profile whose country and
    city are both outside that set is not satisfied, in a configured city or
    not.  The cities make up the expected set only when the list of
    countries is empty. *)
Theorem location_specification_from_countries_only (value : criteria_value) :
  window_accepted value = true →
  (∀ first_country others,
     countries value = Some (first_country :: others) →
     let expected := expected_of_countries first_country others in
     specification_factory "location" value
     = Run [] (Ok (Some (LocationSpecification expected)))
     ∧ (∀ cities_,
          specification_factory "location" (with_cities value cities_)
          = specification_factory "location" value)
     ∧ (∀ candidate,
          country (profile_location candidate) ∉ expected →
          city (profile_location candidate) ∉ expected →
          is_satisfied_by (LocationSpecification expected) candidate
          = Run [DoesNotLiveThere (first_name candidate) (last_name candidate)]
                (Ok false)))
  ∧ (∀ cities_,
       countries value = Some [] → cities value = Some cities_ → cities_ ≠ [] →
       specification_factory "location" value
       = Run [] (Ok (Some (LocationSpecification (list_to_set cities_))))).
Proof.
  intros Hwindow. split.
  - intros first_country others Hcountries expected. split; [|split].
    + by apply factory_location_countries.
    + intros cities_. by eapply factory_location_ignores_cities.
    + intros candidate. apply location_not_satisfied.
  - intros cities_. by apply factory_location_cities.
Qed.

(** Countries Spain and Portugal, cities Paris and Lyon: a candidate living
    in Paris, France is turned down. *)
Lemma location_specification_from_countries_only_witness :
  window_accepted (location_criteria ["Spain"; "Portugal"] ["Paris"; "Lyon"]) = true
  ∧ specification_factory "location"
      (location_criteria ["Spain"; "Portugal"] ["Paris"; "Lyon"])
    = Run [] (Ok (Some (LocationSpecification (expected_of_countries "Spain" ["Portugal"]))))
  ∧ is_satisfied_by (LocationSpecification (expected_of_countries "Spain" ["Portugal"]))
                    (lives_in "Paris" "France")
    = Run [DoesNotLiveThere "Sophia" "Garcia"] (Ok false).
Proof.
  split; [reflexivity|].
  destruct (location_specification_from_countries_only
              (location_criteria ["Spain"; "Portugal"] ["Paris"; "Lyon"]) eq_refl)
    as [Hcountries _].
  destruct (Hcountries "Spain" ["Portugal"] eq_refl) as (Hbuilt & _ & Hturned_down).
  split; [exact Hbuilt|].
  apply (Hturned_down (lives_in "Paris" "France")); vm_compute; intros H; discriminate H.
Defined.

(** Only a token in first place is expanded: then the expected set is the
    27 countries together with the countries that follow. *)
Lemma eu_token_first_is_expanded (token : string) (others cities_ : list string) :
  upper token = "EU"%string →
  specification_factory "location" (location_criteria (token :: others) cities_)
  = Run [] (Ok (Some (LocationSpecification
                        (constants.EU_COUNTRIES ∪ list_to_set others)))).
Proof.
  intros Htoken.
  rewrite (factory_location_countries _ token others) by done.
  unfold expected_of_countries. by rewrite decide_True.
Qed.

(** C5. With the token in second place the loop has returned before it
    reaches it: the expected set holds the literal strings, the token among
    them, none of the 27 countries; a candidate living in Spain is turned
    down. *)
Theorem eu_token_after_first_country_is_not_expanded :
  specification_factory "location" (location_criteria ["USA"; "EU"] [])
  = Run [] (Ok (Some (LocationSpecification {[ "USA"; "EU" ]})))
  ∧ ("Spain"%string ∈ constants.EU_COUNTRIES ∪ {[ "USA" ]})
  ∧ ("Spain"%string ∉ ({[ "USA"; "EU" ]} : gset string))
  ∧ constants.EU_COUNTRIES ∩ {[ "USA"; "EU" ]} = ∅
  ∧ is_satisfied_by (LocationSpecification {[ "USA"; "EU" ]}) (lives_in "Barcelona" "Spain")
    = Run [DoesNotLiveThere "Sophia" "Garcia"] (Ok false).
Proof.
  split; [vm_compute; reflexivity|].
  split; [apply (bool_decide_eq_true_1 _); vm_compute; reflexivity|].
  split; [apply (bool_decide_eq_false_1 _); vm_compute; reflexivity|].
  split; vm_compute; reflexivity.
Qed.

(** ** Chaining the specifications of a position *)

Lemma outcome_bind {A B} (m : M A) (f : A → M B) :
  outcome (m ≫= f) = match outcome m with Ok a => outcome (f a) | Err e => Err e end.
Proof. unfold mbind, M_mbind. by destruct (outcome m). Qed.

Lemma printed_bind {A B} (m : M A) (f : A → M B) :
  printed (m ≫= f)
  = match outcome m with Ok a => printed m ++ printed (f a) | Err _ => printed m end.
Proof. unfold mbind, M_mbind. by destruct (outcome m). Qed.

Lemma build_specifications_outcome
    (items : list (string * criteria_value)) (specifications : list Specification) :
  outcome (build_specifications items specifications)
  = match factory_outcomes items with
    | Ok rs => Ok (specifications ++ built_specifications rs)
    | Err e => Err e
    end.
Proof.
  revert specifications.
  induction items as [|[criteria_name value] items IH]; intros specifications; simpl.
  - by rewrite app_nil_r.
  - rewrite outcome_bind.
    destruct (outcome (specification_factory criteria_name value)) as [r|e]; [|done].
    rewrite IH. simpl.
    destruct (factory_outcomes items) as [rs|e]; [|done]. simpl.
    destruct r as [s|]; [|done]. unfold built_specifications. simpl.
    by rewrite <- app_assoc.
Qed.

Lemma build_specifications_printed
    (items : list (string * criteria_value)) (specifications : list Specification) :
  printed (build_specifications items specifications) = factory_printed items.
Proof.
  revert specifications.
  induction items as [|[criteria_name value] items IH]; intros specifications; simpl.
  - done.
  - rewrite printed_bind.
    destruct (outcome (specification_factory criteria_name value)) as [r|e]; [|done].
    by rewrite IH.
Qed.

(** The loop over [range(1, len(specifications))] folds the tail of the
    list. *)
Lemma and_loop (pre rest : list Specification) (target : Specification) :
  fold_left
    (fun target i =>
       match (pre ++ rest) !! i with
       | Some s => and_ target s
       | None => target
       end)
    (seq (length pre) (length rest)) target
  = fold_left AndSpecification rest target.
Proof.
  revert pre target. induction rest as [|s rest IH]; intros pre target; simpl; [done|].
  rewrite list_lookup_middle by done.
  specialize (IH (pre ++ [s]) (and_ target s)).
  rewrite length_app, <- app_assoc in IH. simpl in IH.
  by rewrite Nat.add_1_r in IH.
Qed.

(** The factory has its own configuration errors; the error of the chain
    builder is not among them. *)
Lemma specification_factory_other_error (criteria_name : string) (value : criteria_value) :
  outcome (specification_factory criteria_name value) ≠ Err (ValueError NoValidCriteria).
Proof.
  unfold specification_factory.
  repeat (rewrite outcome_bind; simpl);
  repeat first
    [ case_decide | case_match | progress simplify_eq/=
    | progress (unfold getitem, raise; simpl)
    | rewrite outcome_bind ]; done.
Qed.

Lemma factory_outcomes_other_error (items : list (string * criteria_value)) :
  factory_outcomes items ≠ Err (ValueError NoValidCriteria).
Proof.
  induction items as [|[criteria_name value] items IH]; simpl; [done|].
  pose proof (specification_factory_other_error criteria_name value) as Hr.
  destruct (outcome (specification_factory criteria_name value)) as [r|e]; simpl.
  - by destruct (factory_outcomes items).
  - congruence.
Qed.

(** C9, as the code has it.  An exception raised by the factory on an entry
    comes out of [chain_specifications_for_position], whatever was built
    before.  When the factory raises on no entry, the function raises its own
    configuration error iff the list of built specifications is empty, and
    otherwise returns the AND-fold of the built specifications, from left to
    right in the order of the entries.  It prints what the factory printed. *)
Theorem chain_specifications_for_position_spec
    (target_profile_criteria : list (string * criteria_value)) :
  let chained := chain_specifications_for_position target_profile_criteria in
  outcome chained
  = match factory_outcomes target_profile_criteria with
    | Err e => Err e
    | Ok rs =>
        match built_specifications rs with
        | [] => Err (ValueError NoValidCriteria)
        | first :: rest => Ok (fold_left AndSpecification rest first)
        end
    end
  ∧ (outcome chained = Err (ValueError NoValidCriteria)
     ↔ ∃ rs, factory_outcomes target_profile_criteria = Ok rs
             ∧ built_specifications rs = [])
  ∧ printed chained = factory_printed target_profile_criteria.
Proof.
  pose proof (factory_outcomes_other_error target_profile_criteria) as Hother.
  unfold chain_specifications_for_position. simpl.
  rewrite outcome_bind, printed_bind, build_specifications_outcome,
    build_specifications_printed.
  destruct (factory_outcomes target_profile_criteria) as [rs|e]; simpl.
  - destruct (built_specifications rs) as [|first rest] eqn:Hbuilt; simpl.
    + split; [done|]. split; [|by rewrite app_nil_r]. split; [by eexists|done].
    + pose proof (and_loop [first] rest first) as Hloop. simpl in Hloop.
      rewrite Nat.sub_0_r, Hloop.
      split; [done|]. split; [|by rewrite app_nil_r].
      split; [done|]. intros (rs' & Hrs & Hnone). congruence.
  - split; [done|]. split; [|done].
    split; [congruence|]. by intros (rs & [=] & _).
Qed.

(** C9, as stated, fails: the factory builds a specification for the first
    entry, so the configuration has a valid criterion, yet the function
    raises instead of returning the specification. *)
Lemma chain_raises_with_a_valid_criterion :
  specification_factory "skills" (skills_criteria ["Figma"])
  = Run [] (Ok (Some (SkillsSpecification (LowerCaseFrozenSet ["Figma"]) None)))
  ∧ chain_specifications_for_position skills_then_window_zero
    = Run [] (Err (ValueError (WindowBelowOne 0))).
Proof. by vm_compute. Qed.

(** An entry with an unknown name is left out, with a warning; the rest is
    chained from left to right. *)
Example chain_known_unknown_known :
  chain_specifications_for_position known_unknown_known
  = Run [CriteriaNotSupported "salary"]
        (Ok (AndSpecification
               (AndSpecification
                  (SkillsSpecification (LowerCaseFrozenSet ["Figma"]) None)
                  (LocationSpecification constants.EU_COUNTRIES))
               (EmployerNameSpecification constants.FAANG 2))).
Proof. vm_compute. reflexivity. Qed.

(** * Further properties *)

(** ** [merge_intervals] *)

Lemma gapsb_gaps (l : list interval) : gapsb l = true ↔ gaps l.
Proof.
  induction l as [|a [|b l] IH]; simpl; [done..|].
  rewrite andb_true_iff, Z.ltb_lt. simpl in IH. by rewrite IH.
Qed.

Lemma forwardb_forward (l : list interval) : forwardb l = true ↔ forward l.
Proof.
  unfold forwardb, forward. rewrite forallb_forall, Forall_forall.
  split; intros H iv Hiv.
  - apply Z.leb_le, H. by apply list_elem_of_In.
  - apply Z.leb_le, H. by apply list_elem_of_In.
Qed.

Lemma merge_from_head_end (current : interval) (rest : list interval) :
  ∃ end_ tail, merge_from current rest = (current.1, end_) :: tail ∧ current.2 ≤ end_.
Proof.
  revert current. induction rest as [|[start end_] rest IH]; intros [s e]; simpl.
  - eexists _, _. split; [done|]. simpl. lia.
  - destruct (start <=? e).
    + destruct (IH (s, Z.max e end_)) as (end' & tail & -> & Hle).
      eexists _, _. split; [done|]. simpl in *. lia.
    + eexists _, _. split; [done|]. simpl. lia.
Qed.

(** X1. [merge_intervals] raises [IndexError] on the empty list and on no
    other input.  On a non-empty list it returns a non-empty list whose first
    interval starts where the first input interval starts and ends no
    earlier than it. *)
Theorem merge_intervals_outcome (intervals : list interval) :
  match intervals with
  | [] => merge_intervals intervals = Err IndexError
  | first :: _ =>
      ∃ end_ tail,
        merge_intervals intervals = Ok ((first.1, end_) :: tail) ∧ first.2 ≤ end_
  end.
Proof.
  destruct intervals as [|first rest]; [done|].
  rewrite merge_intervals_cons.
  destruct (merge_from_head_end first rest) as (end_ & tail & -> & Hle).
  by eexists _, _.
Qed.


(** X3. A non-empty list whose intervals are already apart is returned
    unchanged. *)
Theorem merge_intervals_keeps_apart_lists (intervals : list interval) :
  intervals ≠ [] → gapsb intervals = true → merge_intervals intervals = Ok intervals.
Proof.
  intros Hne Hgaps. destruct intervals as [|first rest]; [done|].
  rewrite merge_intervals_cons. f_equal. by apply merge_from_apart, gapsb_gaps.
Qed.

Lemma merge_intervals_keeps_apart_lists_witness :
  [(735434, 736985); (737350, 737681); (738693, 739190)] ≠ ([] : list interval)
  ∧ gapsb [(735434, 736985); (737350, 737681); (738693, 739190)] = true
  ∧ merge_intervals [(735434, 736985); (737350, 737681); (738693, 739190)]
    = Ok [(735434, 736985); (737350, 737681); (738693, 739190)].
Proof.
  split; [discriminate|]. split; [reflexivity|].
  apply merge_intervals_keeps_apart_lists; [discriminate|reflexivity].
Defined.

Lemma merge_from_covers (current : interval) (rest : list interval) (x : Z) :
  sorted_by_start (current :: rest) = true →
  covers (merge_from current rest) x ↔ covers (current :: rest) x.
Proof.
  unfold covers. revert current.
  induction rest as [|[start end_] rest IH]; intros [s e] Hsorted; [done|].
  simpl in Hsorted. apply andb_true_iff in Hsorted as [Hle Hsorted].
  apply Z.leb_le in Hle. simpl in Hle. simpl.
  destruct (Z.leb_spec start e) as [Htouch|Hapart].
  - rewrite IH.
    + rewrite !Exists_cons. simpl. split.
      * intros [Hx|Hx]; [|by auto]. destruct (Z.le_gt_cases x e); [left|right; left]; lia.
      * intros [Hx|[Hx|Hx]]; [left|left|by right]; lia.
    + simpl. destruct rest as [|[start' end'] rest']; [done|].
      simpl in *. apply andb_true_iff in Hsorted as [Hle' Hsorted].
      apply andb_true_iff. split; [|done]. apply Z.leb_le in Hle'. apply Z.leb_le. lia.
  - rewrite (Exists_cons _ (s, e) (merge_from _ _)), (Exists_cons _ (s, e) (_ :: rest)).
    by rewrite IH.
Qed.

(** X4. On a non-empty list sorted by start the result covers exactly the
    days the input covers: a day lies in one of the merged intervals iff it
    lies in one of the given ones. *)
Theorem merge_intervals_covers_same_days (intervals : list interval) :
  intervals ≠ [] →
  sorted_by_start intervals = true →
  ∃ merged,
    merge_intervals intervals = Ok merged
    ∧ ∀ x, covers merged x ↔ covers intervals x.
Proof.
  intros Hne Hsorted. destruct intervals as [|first rest]; [done|].
  exists (merge_from first rest). split; [apply merge_intervals_cons|].
  intros x. by apply merge_from_covers.
Qed.

Lemma merge_intervals_covers_same_days_witness :
  sample_intervals ≠ []
  ∧ sorted_by_start sample_intervals = true
  ∧ ∃ merged,
      merge_intervals sample_intervals = Ok merged
      ∧ ∀ x, covers merged x ↔ covers sample_intervals x.
Proof.
  split; [discriminate|]. split; [reflexivity|].
  apply merge_intervals_covers_same_days; [discriminate|reflexivity].
Defined.

(** X5. When no interval ends before it starts, merging does not add days:
    the day-spans of the result sum to at most those of the input. *)
Theorem merge_intervals_adds_no_days (intervals : list interval) :
  intervals ≠ [] →
  forwardb intervals = true →
  ∃ merged,
    merge_intervals intervals = Ok merged ∧ days_of merged ≤ days_of intervals.
Proof.
  intros Hne Hforward. apply forwardb_forward in Hforward.
  destruct intervals as [|first rest]; [done|].
  exists (merge_from first rest). split; [apply merge_intervals_cons|].
  apply days_of_merge_from. by inversion Hforward.
Qed.

Lemma merge_intervals_adds_no_days_witness :
  sample_intervals ≠ []
  ∧ forwardb sample_intervals = true
  ∧ ∃ merged,
      merge_intervals sample_intervals = Ok merged
      ∧ days_of merged ≤ days_of sample_intervals.
Proof.
  split; [discriminate|]. split; [reflexivity|].
  apply merge_intervals_adds_no_days; [discriminate|reflexivity].
Defined.

Lemma merge_from_starts (current : interval) (rest : list interval) :
  (merge_from current rest).*1 `sublist_of` (current :: rest).*1.
Proof.
  revert current. induction rest as [|[start end_] rest IH]; intros [s e]; simpl; [done|].
  destruct (start <=? e).
  - etrans; [apply (IH (s, Z.max e end_))|]. simpl.
    apply sublist_skip, sublist_cons. done.
  - apply sublist_skip, (IH (start, end_)).
Qed.

Lemma sorted_by_start_drop_second (a b : interval) (l : list interval) :
  sorted_by_start (a :: b :: l) = true → ∀ end_, sorted_by_start ((a.1, end_) :: l) = true.
Proof.
  simpl. intros [Hab Hl]%andb_true_iff end_. destruct l as [|c l]; [done|].
  apply andb_true_iff in Hl as [Hbc Hl]. apply andb_true_iff. split; [|done].
  apply Z.leb_le in Hab, Hbc. apply Z.leb_le. simpl. lia.
Qed.

Lemma merge_from_sorted (current : interval) (rest : list interval) :
  sorted_by_start (current :: rest) = true →
  sorted_by_start (merge_from current rest) = true.
Proof.
  revert current. induction rest as [|[start end_] rest IH]; intros [s e] Hsorted; [done|].
  simpl. destruct (start <=? e).
  - apply IH. apply (sorted_by_start_drop_second (s, e) (start, end_) rest Hsorted).
  - simpl in Hsorted. apply andb_true_iff in Hsorted as [Hle Hsorted].
    specialize (IH (start, end_) Hsorted).
    destruct (merge_from_head (start, end_) rest) as (end' & tail & Heq).
    rewrite Heq in *. simpl in *. by rewrite Hle.
Qed.

(** X6. The starts of the merged intervals are starts of input intervals, in
    the same order: the result introduces no new start, is no longer than the
    input, and is sorted by start when the input is. *)
Theorem merge_intervals_starts (intervals : list interval) :
  match merge_intervals intervals with
  | Ok merged =>
      merged.*1 `sublist_of` intervals.*1
      ∧ (length merged ≤ length intervals)%nat
      ∧ (sorted_by_start intervals = true → sorted_by_start merged = true)
  | Err _ => intervals = []
  end.
Proof.
  destruct intervals as [|first rest]; [done|].
  rewrite merge_intervals_cons.
  pose proof (merge_from_starts first rest) as Hsub.
  split; [done|]. split.
  - apply sublist_length in Hsub. by rewrite !length_fmap in Hsub.
  - apply merge_from_sorted.
Qed.

(** ** Lower-cased sets, the hit rule, the comparison table *)

Lemma ascii_lower_lower (c : ascii) : ascii_lower (ascii_lower c) = ascii_lower c.
Proof. by destruct c as [[] [] [] [] [] [] [] []]. Qed.

Lemma ascii_lower_upper (c : ascii) : ascii_lower (ascii_upper c) = ascii_lower c.
Proof. by destruct c as [[] [] [] [] [] [] [] []]. Qed.

Lemma lower_lower (s : string) : lower (lower s) = lower s.
Proof. induction s as [|c s IH]; simpl; [done|]. by rewrite ascii_lower_lower, IH. Qed.

Lemma lower_upper (s : string) : lower (upper s) = lower s.
Proof. induction s as [|c s IH]; simpl; [done|]. by rewrite ascii_lower_upper, IH. Qed.

Lemma elem_of_LowerCaseFrozenSet (data : list string) (x : string) :
  x ∈ LowerCaseFrozenSet data ↔ ∃ y, y ∈ data ∧ x = lower y.
Proof.
  unfold LowerCaseFrozenSet. rewrite elem_of_list_to_set, list_elem_of_fmap.
  split; intros (y & H1 & H2); by exists y.
Qed.

Lemma LowerCaseFrozenSet_upper (data : list string) :
  LowerCaseFrozenSet (upper <$> data) = LowerCaseFrozenSet data.
Proof.
  unfold LowerCaseFrozenSet. f_equal. rewrite <- list_fmap_compose.
  apply list_fmap_ext. intros _ y _. apply lower_upper.
Qed.

Lemma LowerCaseFrozenSet_lower (data : list string) :
  LowerCaseFrozenSet (lower <$> data) = LowerCaseFrozenSet data.
Proof.
  unfold LowerCaseFrozenSet. f_equal. rewrite <- list_fmap_compose.
  apply list_fmap_ext. intros _ y _. apply lower_lower.
Qed.

(** X7. A [LowerCaseFrozenSet] holds exactly the lower-cased elements of its
    data; each of its elements is in lower case, and the set does not change
    when the data are given in upper case or in lower case. *)
Theorem LowerCaseFrozenSet_ignores_case (data : list string) :
  (∀ x, x ∈ LowerCaseFrozenSet data ↔ ∃ y, y ∈ data ∧ x = lower y)
  ∧ (∀ x, x ∈ LowerCaseFrozenSet data → lower x = x)
  ∧ LowerCaseFrozenSet (upper <$> data) = LowerCaseFrozenSet data
  ∧ LowerCaseFrozenSet (lower <$> data) = LowerCaseFrozenSet data.
Proof.
  split; [apply elem_of_LowerCaseFrozenSet|]. split; [|split].
  - intros x (y & _ & ->)%elem_of_LowerCaseFrozenSet. apply lower_lower.
  - apply LowerCaseFrozenSet_upper.
  - apply LowerCaseFrozenSet_lower.
Qed.

(** X8. A hit count that is negative, or larger than the number of expected
    elements, or larger than the number of evaluated elements, is never met. *)
Theorem hit_count_out_of_reach (evaluated expected : gset string) (k : Z) :
  k < 0 ∨ Z.of_nat (size expected) < k ∨ Z.of_nat (size evaluated) < k →
  has_intersection_or_is_subset evaluated expected (Some k) = false.
Proof.
  intros Hk. unfold has_intersection_or_is_subset.
  assert (size (evaluated ∩ expected) ≤ size expected)%nat
    by apply subseteq_size, intersection_subseteq_r.
  assert (size (evaluated ∩ expected) ≤ size evaluated)%nat
    by apply subseteq_size, intersection_subseteq_l.
  destruct (Z.eqb_spec k 0) as [->|Hne]; simpl; [lia|].
  apply Z.eqb_neq. lia.
Qed.

Lemma hit_count_out_of_reach_witness :
  (3 < 0 ∨ Z.of_nat (size (LowerCaseFrozenSet ["Miro"; "Sketch"])) < 3
   ∨ Z.of_nat (size (LowerCaseFrozenSet ["Miro"; "Sketch"; "Figma"; "Vim"])) < 3)
  ∧ has_intersection_or_is_subset
      (LowerCaseFrozenSet ["Miro"; "Sketch"; "Figma"; "Vim"])
      (LowerCaseFrozenSet ["Miro"; "Sketch"]) (Some 3) = false.
Proof.
  assert (3 < 0 ∨ Z.of_nat (size (LowerCaseFrozenSet ["Miro"; "Sketch"])) < 3
          ∨ Z.of_nat (size (LowerCaseFrozenSet ["Miro"; "Sketch"; "Figma"; "Vim"])) < 3)
    as Hk by (right; left; vm_compute; reflexivity).
  split; [exact Hk|].
  exact (hit_count_out_of_reach _ _ 3 Hk).
Defined.


(** X10. The comparison table has the five operands and no other key: for
    one of the five it yields the test of the relation the operand stands
    for, measured value on the left; for any other string the lookup raises
    [KeyError]. *)
Theorem comparison_functions_table (operand : string) :
  match comparison_functions operand with
  | Ok compare =>
      operand ∈ operands ∧ ∀ x y, compare x y = true ↔ operand_holds operand x y
  | Err e => e = KeyError operand ∧ operand ∉ operands
  end.
Proof.
  unfold comparison_functions, operands, operand_holds.
  repeat case_decide; subst; simpl;
    try (split; [repeat constructor|]; intros x y;
         rewrite ?negb_true_iff, <- ?not_true_iff_false, ?Qle_bool_iff, ?Qeq_bool_iff;
         split; [intros Hxy; try apply Qnot_le_lt in Hxy; tauto|];
         intros [[Hop Hxy]|[[Hop Hxy]|[[Hop Hxy]|[[Hop Hxy]|[Hop Hxy]]]]];
         try discriminate Hop; try done; by apply Qlt_not_le).
  split; [done|].
  intros Hin. repeat (apply elem_of_cons in Hin as [->|Hin]; [done|]).
  by apply elem_of_nil in Hin.
Qed.

(** ** More on the validator *)

Lemma in_orderb_in_order (experience : Experience) :
  in_orderb experience = true ↔ in_order experience.
Proof.
  unfold in_orderb, in_order. destruct (ends_at experience) as [end_|].
  - rewrite Z.ltb_lt. split; [by exists end_|]. by intros (? & [= <-] & ?).
  - split; [done|]. by intros (? & [=] & _).
Qed.

Lemma with_end_date_idemp (today : Z) (experience : Experience) :
  with_end_date today (with_end_date today experience) = with_end_date today experience.
Proof. unfold with_end_date. by destruct (ends_at experience) eqn:E; simpl; rewrite ?E. Qed.

Lemma out_of_order_with_end_date (today : Z) (experience : Experience) :
  (default today (ends_at (with_end_date today experience))
   <=? starts_at (with_end_date today experience))
  = out_of_order today experience.
Proof. unfold out_of_order, with_end_date. by destruct (ends_at experience) eqn:E; simpl; rewrite ?E. Qed.

Lemma with_end_date_in_order (today : Z) (experience : Experience) :
  out_of_order today experience = false → in_order (with_end_date today experience).
Proof.
  unfold out_of_order, with_end_date, in_order. intros H%Z.leb_gt.
  destruct (ends_at experience) as [end_|] eqn:E; simpl in *.
  - exists end_. split; [done|lia].
  - exists today. split; [done|lia].
Qed.

(** A statement about [validated_from] for all lists follows from its steps:
    the recursion goes to the tail or to the tail of the tail. *)
Lemma validated_from_ind (today : Z) (P : list Experience → Prop) :
  P [] →
  (∀ experience, out_of_order today experience = true → P [experience]) →
  (∀ experience unvisited rest,
     out_of_order today experience = true → P rest → P (experience :: unvisited :: rest)) →
  (∀ experience rest,
     out_of_order today experience = false → P rest → P (experience :: rest)) →
  ∀ l, P l.
Proof.
  intros Hnil Hlast Hdrop Hkeep l.
  assert (P l ∧ ∀ x, P (x :: l)) as [H _]; [|done].
  induction l as [|y l [IH1 IH2]].
  - split; [done|]. intros x. destruct (out_of_order today x) eqn:E; auto.
  - split; [apply IH2|]. intros x. destruct (out_of_order today x) eqn:E; auto.
Qed.

(** X11. When the test rejects no entry of the list, the validator drops
    nothing and prints nothing: the profile keeps every entry in its place,
    each with today's date filled in for a missing end date, and all of them
    in order. *)
Theorem validator_keeps_list_in_order (today : Z) (first last : string)
    (l : list Experience) :
  forallb (fun experience => negb (out_of_order today experience)) l = true →
  check_start_date_precedes_end_date today first last l
  = ([], with_end_date today <$> l)
  ∧ Forall in_order (with_end_date today <$> l).
Proof.
  rewrite check_start_date_precedes_end_date_spec.
  induction l as [|experience l IH]; simpl; [done|].
  intros [Hok Hl]%andb_true_iff. apply negb_true_iff in Hok.
  destruct (IH Hl) as [IH1 IH2].
  rewrite out_of_order_with_end_date, Hok, IH1. split; [done|].
  constructor; [by apply with_end_date_in_order|done].
Qed.

Lemma validator_keeps_list_in_order_witness :
  forallb (fun experience => negb (out_of_order 738886 experience))
          ongoing_then_finished = true
  ∧ check_start_date_precedes_end_date 738886 "Sophia" "Garcia" ongoing_then_finished
    = ([], with_end_date 738886 <$> ongoing_then_finished)
  ∧ Forall in_order (with_end_date 738886 <$> ongoing_then_finished).
Proof.
  split; [reflexivity|].
  apply validator_keeps_list_in_order. reflexivity.
Defined.

(** X12. The validator only removes entries and fills in end dates: what it
    keeps are entries of the input in their order, up to a filled-in end
    date, and it prints one warning for each entry it removes. *)
Theorem validator_only_removes (today : Z) (first last : string) (l : list Experience) :
  let kept := (check_start_date_precedes_end_date today first last l).2 in
  let warnings := (check_start_date_precedes_end_date today first last l).1 in
  (with_end_date today <$> kept) `sublist_of` (with_end_date today <$> l)
  ∧ (length kept + length warnings = length l)%nat.
Proof.
  simpl. rewrite check_start_date_precedes_end_date_spec.
  induction l as [|experience Hbad|experience unvisited rest Hbad IH|experience rest Hok IH]
    using (validated_from_ind today); simpl;
    rewrite ?out_of_order_with_end_date, ?Hbad, ?Hok; simpl.
  - done.
  - split; [apply sublist_nil_l|done].
  - destruct (validated_from today first last rest) as [log r]. simpl in *.
    destruct IH as [IH1 IH2]. split; [|lia].
    by apply sublist_cons, sublist_skip.
  - destruct (validated_from today first last rest) as [log r]. simpl in *.
    destruct IH as [IH1 IH2]. split; [|lia].
    rewrite with_end_date_idemp. by apply sublist_skip.
Qed.

Lemma shielded_tail (today : Z) (a : Experience) (l : list Experience) :
  shielded today (a :: l) = true → shielded today l = true.
Proof. destruct l as [|b l]; [done|]. simpl. by intros [_ ?]%andb_true_iff. Qed.

Lemma validated_from_in_order (today : Z) (first last : string) (l : list Experience) :
  shielded today l = true → Forall in_order (validated_from today first last l).2.
Proof.
  induction l as [|experience Hbad|experience unvisited rest Hbad IH|experience rest Hok IH]
    using (validated_from_ind today); simpl;
    rewrite ?out_of_order_with_end_date, ?Hbad, ?Hok; simpl.
  - done.
  - done.
  - intros [Hnext Hrest]%andb_true_iff.
    simpl in Hnext. apply in_orderb_in_order in Hnext.
    apply shielded_tail in Hrest. specialize (IH Hrest).
    destruct (validated_from today first last rest) as [log r]. simpl in *.
    by constructor.
  - intros Hrest.
    assert (shielded today rest = true) as Hrest' by (by destruct rest).
    specialize (IH Hrest').
    destruct (validated_from today first last rest) as [log r]. simpl in *.
    constructor; [by apply with_end_date_in_order|done].
Qed.

(** X13. When no entry that the test rejects is directly followed by an
    entry that is not in order as it stands, every experience the validator
    keeps has an end date later than its start. *)
Theorem validator_result_in_order (today : Z) (first last : string)
    (l : list Experience) :
  shielded today l = true →
  Forall in_order (check_start_date_precedes_end_date today first last l).2.
Proof.
  rewrite check_start_date_precedes_end_date_spec. apply validated_from_in_order.
Qed.

Lemma validator_result_in_order_witness :
  shielded 738886 good_bad_good = true
  ∧ Forall in_order
      (check_start_date_precedes_end_date 738886 "Sophia" "Garcia" good_bad_good).2.
Proof.
  split; [reflexivity|].
  apply validator_result_in_order. reflexivity.
Defined.

(** ** More on the queries of a profile *)

(** The last two of three experiences. *)
Lemma get_n_last_experiences_spec_witness :
  forallb dated (experiences (candidate_with good_bad_good)) = true
  ∧ 0 ≤ 2
  ∧ ∃ out rest,
      get_n_last_experiences (candidate_with good_bad_good) 2 = Ok out
      ∧ experiences (candidate_with good_bad_good) ≡ₚ out ++ rest
      ∧ (Z.of_nat (length (experiences (candidate_with good_bad_good))) ≤ 2 →
         rest = [] ∧ ascending end_of out)
      ∧ (2 < Z.of_nat (length (experiences (candidate_with good_bad_good))) →
         length out = Z.to_nat 2
         ∧ descending end_of out
         ∧ ∀ x y, x ∈ out → y ∈ rest → end_of y ≤ end_of x).
Proof.
  split; [reflexivity|]. split; [lia|].
  apply (get_n_last_experiences_spec (candidate_with good_bad_good) 2);
    [reflexivity|lia].
Defined.

Lemma intervals_of_dated (l : list Experience) :
  intervals_of l
  = if forallb dated l
    then Ok ((fun experience => (starts_at experience, end_of experience)) <$> l)
    else Err TypeError.
Proof.
  induction l as [|x l IH]; simpl; [done|].
  unfold interval_of, dated at 1, end_of at 1.
  destruct (ends_at x) as [end_|]; simpl; [|done].
  rewrite IH. by destruct (forallb dated l).
Qed.

Lemma forallb_perm {A} (f : A → bool) (l l' : list A) :
  l ≡ₚ l' → forallb f l = forallb f l'.
Proof.
  induction 1 as [|x l l' _ IH|x y l|l1 l2 l3 _ IH1 _ IH2]; simpl.
  - done.
  - by rewrite IH.
  - by destruct (f x), (f y).
  - by rewrite IH1.
Qed.

(** X15. The errors of [count_years_of_experience]: it raises [TypeError]
    iff some experience has no end date, and [IndexError] iff the profile has
    no experience at all and overlaps are not to be counted.  It raises
    nothing else. *)
Theorem count_years_of_experience_errors (self : Profile) (overlaps : bool)
    (e : exception) :
  count_years_of_experience self overlaps = Err e
  ↔ (e = TypeError ∧ forallb dated (experiences self) = false)
    ∨ (e = IndexError ∧ overlaps = false ∧ experiences self = []).
Proof.
  unfold count_years_of_experience. rewrite sorted_by_starts_at. simpl.
  rewrite intervals_of_dated, (forallb_perm _ _ _ (stable_sort_perm starts_at _)).
  pose proof (stable_sort_length starts_at (experiences self)) as Hlen.
  destruct (forallb dated (experiences self)) eqn:Hdated; simpl.
  - destruct overlaps; simpl.
    + split; [done|]. by intros [[_ [=]]|(_ & [=] & _)].
    + destruct (stable_sort starts_at (experiences self)) as [|x l].
      * simpl. destruct (experiences self); [|done].
        split; [intros [= <-]; by right|]. by intros [[_ [=]]|(-> & _)].
      * rewrite fmap_cons, merge_intervals_cons. simpl. split; [done|].
        intros [[_ [=]]|(_ & _ & Hnil)]. by rewrite Hnil in Hlen.
  - split; [intros [= <-]; by left|]. intros [[-> _]|(_ & _ & Hnil)]; [done|].
    by rewrite Hnil in Hdated.
Qed.

Lemma days_of_perm (l l' : list interval) : l ≡ₚ l' → days_of l = days_of l'.
Proof.
  induction 1 as [|iv l l' _ IH|a b l|l1 l2 l3 _ IH1 _ IH2].
  - done.
  - by rewrite !days_of_cons, IH.
  - rewrite !days_of_cons. lia.
  - by rewrite IH1.
Qed.

(** X16. With overlaps counted, the number of years does not depend on the
    order in which the profile lists its experiences. *)
Theorem count_years_of_experience_any_order (self other : Profile) :
  experiences self ≡ₚ experiences other →
  count_years_of_experience self true = count_years_of_experience other true.
Proof.
  intros Hperm. unfold count_years_of_experience.
  rewrite !sorted_by_starts_at. simpl. rewrite !intervals_of_dated.
  assert (stable_sort starts_at (experiences self)
          ≡ₚ stable_sort starts_at (experiences other)) as Hsorted
    by by rewrite !stable_sort_perm.
  rewrite (forallb_perm _ _ _ Hsorted).
  destruct (forallb dated _); simpl; [|done].
  do 2 f_equal. f_equal. apply days_of_perm. by apply fmap_Permutation.
Qed.

Lemma count_years_of_experience_any_order_witness :
  experiences (candidate_with [blablacar; glovo]) ≡ₚ experiences (candidate_with [glovo; blablacar])
  ∧ count_years_of_experience (candidate_with [blablacar; glovo]) true
    = count_years_of_experience (candidate_with [glovo; blablacar]) true.
Proof.
  assert (experiences (candidate_with [blablacar; glovo])
          ≡ₚ experiences (candidate_with [glovo; blablacar])) as Hperm
    by apply perm_swap.
  split; [exact Hperm|].
  exact (count_years_of_experience_any_order _ _ Hperm).
Defined.

(** The candidate of the test suite. *)
Lemma count_years_merged_le_raw_witness :
  experiences POTENTIAL_CANDIDATE ≠ []
  ∧ Forall well_dated (experiences POTENTIAL_CANDIDATE)
  ∧ ∃ merged raw,
      count_years_of_experience POTENTIAL_CANDIDATE false = Ok merged
      ∧ count_years_of_experience POTENTIAL_CANDIDATE true = Ok raw
      ∧ (merged <= raw)%Q.
Proof.
  assert (Forall well_dated (experiences POTENTIAL_CANDIDATE)) as Hdated.
  { repeat constructor; eexists; (split; [reflexivity|simpl; lia]). }
  split; [discriminate|]. split; [exact Hdated|].
  apply (count_years_merged_le_raw POTENTIAL_CANDIDATE); [discriminate|exact Hdated].
Defined.

(** ** Evaluating specifications *)

Lemma M_eta {A} (m : M A) : Run (printed m) (outcome m) = m.
Proof. by destruct m. Qed.

Lemma is_satisfied_by_printed (self : Specification) (candidate : Profile) :
  match outcome (is_satisfied_by self candidate) with
  | Ok true => printed (is_satisfied_by self candidate) = []
  | Ok false => length (printed (is_satisfied_by self candidate)) = 1%nat
  | Err _ => printed (is_satisfied_by self candidate) = []
  end.
Proof.
  induction self as [first IH1 second IH2| | | | | | |].
  - simpl. unfold mbind, M_mbind.
    destruct (outcome (is_satisfied_by first candidate)) as [[|]|e]; simpl.
    + rewrite IH1. simpl. apply IH2.
    + by rewrite app_nil_r.
    + done.
  - simpl. unfold mbind, M_mbind, lift, print, mret, M_ret. simpl.
    repeat case_match; simplify_eq/=; done.
  - simpl. unfold mbind, M_mbind, lift, print, mret, M_ret. simpl.
    repeat case_match; simplify_eq/=; done.
  - simpl. unfold mbind, M_mbind, lift, print, mret, M_ret. simpl.
    repeat (case_match; simplify_eq/=); done.
  - simpl. unfold mbind, M_mbind, lift, print, mret, M_ret. simpl.
    repeat case_match; simplify_eq/=; done.
  - simpl. unfold mbind, M_mbind, lift, print, mret, M_ret. simpl.
    repeat case_match; simplify_eq/=; done.
  - simpl. unfold mbind, M_mbind, lift, print, mret, M_ret. simpl.
    repeat case_match; simplify_eq/=; done.
  - simpl. unfold mbind, M_mbind, lift, print, mret, M_ret. simpl.
    repeat (case_match; simplify_eq/=); done.
Qed.

(** X18. However specifications are nested, an evaluation that finds the
    candidate satisfied prints nothing, one that finds the candidate not
    satisfied prints exactly one rejection message, and one that raises has
    printed nothing before. *)
Theorem is_satisfied_by_prints_one_rejection (self : Specification) (candidate : Profile) :
  let r := is_satisfied_by self candidate in
  (outcome r = Ok true → printed r = [])
  ∧ (outcome r = Ok false → ∃ m, printed r = [m])
  ∧ (∀ e, outcome r = Err e → printed r = []).
Proof.
  simpl. pose proof (is_satisfied_by_printed self candidate) as H.
  destruct (outcome (is_satisfied_by self candidate)) as [[|]|e]; split_and!; try done.
  intros _. destruct (printed (is_satisfied_by self candidate)) as [|m [|m' l]]; try done.
  by exists m.
Qed.

Lemma is_satisfied_by_And (first second : Specification) (candidate : Profile) :
  is_satisfied_by (AndSpecification first second) candidate
  = is_satisfied_by first candidate ≫= fun a : bool =>
    if a then is_satisfied_by second candidate else mret false.
Proof. reflexivity. Qed.

Lemma M_bind_assoc {A B C} (m : M A) (f : A → M B) (g : B → M C) :
  (m ≫= f) ≫= g = m ≫= fun a => f a ≫= g.
Proof.
  unfold mbind, M_mbind. destruct (outcome m) as [a|e]; simpl; [|done].
  destruct (outcome (f a)) as [b|e]; simpl; [|done].
  by rewrite app_assoc.
Qed.

Lemma M_bind_ext {A B} (m : M A) (f g : A → M B) :
  (∀ a, f a = g a) → m ≫= f = m ≫= g.
Proof. intros H. unfold mbind, M_mbind. destruct (outcome m); by rewrite ?H. Qed.

(** X19. Nesting to the left or to the right makes no difference: the two
    composites of three specifications print the same and return the same,
    verdict or exception. *)
Theorem and_specification_assoc (a b c : Specification) (candidate : Profile) :
  is_satisfied_by (AndSpecification (AndSpecification a b) c) candidate
  = is_satisfied_by (AndSpecification a (AndSpecification b c)) candidate.
Proof.
  rewrite !is_satisfied_by_And, M_bind_assoc. apply M_bind_ext. intros [|]; [done|].
  unfold mbind, M_mbind, mret, M_ret. done.
Qed.

Lemma satisfied_by_all_fold (first : Specification) (rest : list Specification)
    (candidate : Profile) :
  is_satisfied_by (fold_left AndSpecification rest first) candidate
  = is_satisfied_by first candidate ≫= fun b : bool =>
    if b then satisfied_by_all rest candidate else mret false.
Proof.
  revert first. induction rest as [|s rest IH]; intros first; simpl.
  - rewrite <- (M_eta (is_satisfied_by first candidate)) at 1.
    unfold mbind, M_mbind, mret, M_ret.
    destruct (outcome (is_satisfied_by first candidate)) as [[|]|e]; simpl;
      by rewrite ?app_nil_r.
  - rewrite IH, is_satisfied_by_And, M_bind_assoc. apply M_bind_ext. intros [|]; [done|].
    unfold mbind, M_mbind, mret, M_ret. done.
Qed.

Lemma satisfied_by_all_true (specs : list Specification) (candidate : Profile) :
  outcome (satisfied_by_all specs candidate) = Ok true
  ↔ Forall (fun s => outcome (is_satisfied_by s candidate) = Ok true) specs.
Proof.
  induction specs as [|s specs IH]; simpl.
  - split; [by constructor|done].
  - rewrite outcome_bind, Forall_cons, <- IH.
    destruct (outcome (is_satisfied_by s candidate)) as [[|]|e]; simpl; split;
      try done; by intros [? ?].
Qed.

(** The chain evaluated on a candidate whose first unsatisfied (or raising)
    specification is [s]. *)
Lemma satisfied_by_all_first_failure
    (before after : list Specification) (s : Specification) (candidate : Profile) :
  Forall (fun s' => outcome (is_satisfied_by s' candidate) = Ok true) before →
  outcome (is_satisfied_by s candidate) ≠ Ok true →
  satisfied_by_all (before ++ s :: after) candidate = is_satisfied_by s candidate.
Proof.
  intros Hbefore Hs. induction Hbefore as [|s' before Hs' _ IH]; simpl.
  - rewrite <- (M_eta (is_satisfied_by s candidate)) at 2.
    unfold mbind, M_mbind, mret, M_ret.
    destruct (outcome (is_satisfied_by s candidate)) as [[|]|e]; simpl;
      by rewrite ?app_nil_r.
  - rewrite IH. unfold mbind, M_mbind.
    pose proof (is_satisfied_by_printed s' candidate) as Hprinted.
    rewrite Hs' in *. rewrite Hprinted. simpl. apply M_eta.
Qed.

(** X20. The AND-fold of a list of specifications, as the chain builder
    makes it, finds a candidate satisfied iff every specification of the list
    does.  Otherwise it stops at the first specification of the list that is
    not satisfied or raises: the fold prints and returns exactly what that
    specification prints and returns, and the later ones are not evaluated. *)
Theorem and_fold_stops_at_first_failure
    (first : Specification) (rest : list Specification) (candidate : Profile) :
  let chained := fold_left AndSpecification rest first in
  (outcome (is_satisfied_by chained candidate) = Ok true
   ↔ Forall (fun s => outcome (is_satisfied_by s candidate) = Ok true) (first :: rest))
  ∧ (∀ before s after,
       first :: rest = before ++ s :: after →
       Forall (fun s' => outcome (is_satisfied_by s' candidate) = Ok true) before →
       outcome (is_satisfied_by s candidate) ≠ Ok true →
       is_satisfied_by chained candidate = is_satisfied_by s candidate).
Proof.
  simpl.
  assert (is_satisfied_by (fold_left AndSpecification rest first) candidate
          = satisfied_by_all (first :: rest) candidate) as -> by apply satisfied_by_all_fold.
  split; [apply satisfied_by_all_true|].
  intros before s after -> Hbefore Hs. by apply satisfied_by_all_first_failure.
Qed.

Lemma and_fold_stops_at_first_failure_witness :
  [lives_in_spain; worked_for_nasa; lives_in_russia] = [lives_in_spain] ++ worked_for_nasa :: [lives_in_russia]
  ∧ Forall (fun s' => outcome (is_satisfied_by s' POTENTIAL_CANDIDATE) = Ok true)
           [lives_in_spain]
  ∧ outcome (is_satisfied_by worked_for_nasa POTENTIAL_CANDIDATE) ≠ Ok true
  ∧ is_satisfied_by
      (fold_left AndSpecification [worked_for_nasa; lives_in_russia] lives_in_spain)
      POTENTIAL_CANDIDATE
    = is_satisfied_by worked_for_nasa POTENTIAL_CANDIDATE.
Proof.
  assert (Forall (fun s' => outcome (is_satisfied_by s' POTENTIAL_CANDIDATE) = Ok true)
                 [lives_in_spain]) as Hbefore
    by (repeat constructor; vm_compute; reflexivity).
  assert (outcome (is_satisfied_by worked_for_nasa POTENTIAL_CANDIDATE) ≠ Ok true) as Hs
    by (vm_compute; discriminate).
  split; [reflexivity|]. split; [exact Hbefore|]. split; [exact Hs|].
  destruct (and_fold_stops_at_first_failure lives_in_spain
              [worked_for_nasa; lives_in_russia] POTENTIAL_CANDIDATE) as [_ Hstop].
  exact (Hstop [lives_in_spain] worked_for_nasa [lives_in_russia] eq_refl Hbefore Hs).
Defined.

(** ** Leaf specifications *)

Lemma intersection_size_nonzero (X Y : gset string) :
  negb (size (X ∩ Y) =? 0)%nat = true ↔ ∃ x, x ∈ X ∧ x ∈ Y.
Proof.
  rewrite negb_true_iff, Nat.eqb_neq, size_non_empty_iff.
  split.
  - intros [x Hx%elem_of_intersection]%set_choose. by exists x.
  - intros (x & HX & HY) Hempty.
    assert (x ∈ X ∩ Y) as Hx by by apply elem_of_intersection.
    rewrite Hempty in Hx. by apply not_elem_of_empty in Hx.
Qed.

(** X21. Given the last experiences the profile hands out, the Employer
    specification is satisfied iff one of them was with a company whose
    lower-cased name is among the expected ones, and the Position
    specification iff one of them carried a job title whose lower-cased form
    is among the expected ones. *)
Theorem employer_and_position_satisfied_iff
    (expected : gset string) (n : Z) (candidate : Profile) (checked : list Experience) :
  get_n_last_experiences candidate n = Ok checked →
  (outcome (is_satisfied_by (EmployerNameSpecification expected n) candidate) = Ok true
   ↔ ∃ experience, experience ∈ checked ∧ lower (company_name experience) ∈ expected)
  ∧ (outcome (is_satisfied_by (PositionSpecification expected (Some n)) candidate) = Ok true
     ↔ ∃ experience, experience ∈ checked ∧ lower (job_title experience) ∈ expected).
Proof.
  intros Hchecked. simpl. rewrite Hchecked.
  unfold mbind, M_mbind, lift, print, mret, M_ret. simpl.
  split.
  - destruct (negb _) eqn:Hmet; simpl.
    + split; [intros _|done]. apply intersection_size_nonzero in Hmet as (x & Hx & Hexp).
      apply elem_of_LowerCaseFrozenSet in Hx as (y & (experience & -> & Hin)%list_elem_of_fmap & ->).
      by exists experience.
    + split; [done|]. intros (experience & Hin & Hexp).
      assert (negb (size (LowerCaseFrozenSet (company_name <$> checked) ∩ expected) =? 0)%nat
              = true) as Hmet'; [|congruence].
      apply intersection_size_nonzero. exists (lower (company_name experience)).
      split; [|done]. apply elem_of_LowerCaseFrozenSet.
      exists (company_name experience). split; [|done]. apply list_elem_of_fmap. by exists experience.
  - destruct (negb _) eqn:Hmet; simpl.
    + split; [intros _|done]. apply intersection_size_nonzero in Hmet as (x & Hx & Hexp).
      apply elem_of_LowerCaseFrozenSet in Hx as (y & (experience & -> & Hin)%list_elem_of_fmap & ->).
      by exists experience.
    + split; [done|]. intros (experience & Hin & Hexp).
      assert (negb (size (LowerCaseFrozenSet (job_title <$> checked) ∩ expected) =? 0)%nat
              = true) as Hmet'; [|congruence].
      apply intersection_size_nonzero. exists (lower (job_title experience)).
      split; [|done]. apply elem_of_LowerCaseFrozenSet.
      exists (job_title experience). split; [|done]. apply list_elem_of_fmap. by exists experience.
Qed.

(** A candidate whose only employer is spelled ["GOOGLE"], against the
    expected set [FAANG]. *)
Lemma employer_and_position_satisfied_iff_witness :
  get_n_last_experiences (worked_at "GOOGLE") 3
  = Ok [job "GOOGLE" "Engineer" 737211 (Some 738246)]
  ∧ (outcome (is_satisfied_by (EmployerNameSpecification constants.FAANG 3)
                              (worked_at "GOOGLE")) = Ok true
     ↔ ∃ experience,
         experience ∈ [job "GOOGLE" "Engineer" 737211 (Some 738246)]
         ∧ lower (company_name experience) ∈ constants.FAANG).
Proof.
  split; [reflexivity|].
  apply (employer_and_position_satisfied_iff constants.FAANG 3 (worked_at "GOOGLE")).
  reflexivity.
Defined.

(** X22. On a candidate without experiences the DurationOfEmployment
    specification raises the [ValueError] of [max] on an empty sequence,
    whatever its parameters; nothing is printed. *)
Theorem work_experience_length_without_experiences
    (years_ : Q) (operand : string) (n : Z) (candidate : Profile) :
  experiences candidate = [] →
  is_satisfied_by (WorkExperienceLengthSpecification years_ operand n) candidate
  = Run [] (Err (ValueError MaxOfEmptySequence)).
Proof.
  intros Hnone.
  assert (get_n_last_experiences candidate n = Ok []) as Hlast.
  { unfold get_n_last_experiences, _get_experiences_sorted_by, sorted.
    rewrite Hnone. change (length (@nil Experience)) with 0%nat. simpl.
    destruct (_ <=? n); [done|].
    unfold slice_backwards. f_equal. by destruct (Z.to_nat _). }
  simpl. rewrite Hlast. by run.
Qed.

Lemma work_experience_length_without_experiences_witness :
  experiences (candidate_with []) = []
  ∧ is_satisfied_by (WorkExperienceLengthSpecification 2 ">" 1) (candidate_with [])
    = Run [] (Err (ValueError MaxOfEmptySequence)).
Proof.
  split; [reflexivity|].
  apply work_experience_length_without_experiences. reflexivity.
Defined.

(** ** More on the factory *)

(** X23. Whatever the name of the criterion, known or not, a value of
    ['check_last_n_experiences'] below one makes the factory raise its
    [ValueError] before it looks at anything else; nothing is printed. *)
Theorem factory_rejects_window_below_one
    (criteria_name : string) (value : criteria_value) (n : Z) :
  check_last_n_experiences value = Some n →
  n < 1 →
  specification_factory criteria_name value = Run [] (Err (ValueError (WindowBelowOne n))).
Proof.
  intros Hn Hlt. unfold specification_factory. rewrite Hn.
  destruct (Z.ltb_spec n 1); [by run|lia].
Qed.

Lemma factory_rejects_window_below_one_witness :
  check_last_n_experiences (employer_criteria "NASA" 0) = Some 0
  ∧ 0 < 1
  ∧ specification_factory "salary" (employer_criteria "NASA" 0)
    = Run [] (Err (ValueError (WindowBelowOne 0))).
Proof.
  split; [reflexivity|]. split; [lia|].
  apply factory_rejects_window_below_one; [reflexivity|lia].
Defined.

Lemma elem_of_criteria_names (criteria_name : string) :
  criteria_name ∈ criteria_names
  ↔ criteria_name = "employer"%string ∨ criteria_name = "location"%string
    ∨ criteria_name = "experience_total"%string ∨ criteria_name = "skills"%string
    ∨ criteria_name = "skills_at_work"%string ∨ criteria_name = "position"%string
    ∨ criteria_name = "duration_of_employment"%string.
Proof.
  unfold criteria_names. rewrite !elem_of_cons, elem_of_nil. tauto.
Qed.

(** Takes the next field the factory reads apart. *)
Ltac field_case value :=
  match goal with
  | |- context [match ?f value with _ => _ end] => destruct (f value) eqn:?
  | |- context [match ?x with _ => _ end] => is_var x; destruct x
  end.

Lemma factory_window_rejected (criteria_name : string) (value : criteria_value) :
  window_accepted value = false →
  ∃ n, specification_factory criteria_name value
       = Run [] (Err (ValueError (WindowBelowOne n))).
Proof.
  unfold window_accepted, specification_factory.
  destruct (check_last_n_experiences value) as [n|]; [|done].
  intros Hn%Z.leb_gt. exists n. destruct (Z.ltb_spec n 1); [by run|lia].
Qed.

Lemma factory_unknown_name (criteria_name : string) (value : criteria_value) :
  window_accepted value = true →
  criteria_name ∉ criteria_names →
  specification_factory criteria_name value
  = Run [CriteriaNotSupported criteria_name] (Ok None).
Proof.
  unfold window_accepted, specification_factory.
  rewrite elem_of_criteria_names. intros Hwindow Hname.
  rewrite !decide_False by tauto.
  destruct (check_last_n_experiences value) as [n|]; [|by run].
  apply Z.leb_le in Hwindow. destruct (Z.ltb_spec n 1); [lia|by run].
Qed.

Lemma factory_known_name (criteria_name : string) (value : criteria_value) :
  criteria_name ∈ criteria_names →
  printed (specification_factory criteria_name value) = []
  ∧ outcome (specification_factory criteria_name value) ≠ Ok None.
Proof.
  rewrite elem_of_criteria_names. unfold specification_factory.
  destruct (check_last_n_experiences value) as [n|] eqn:Hwindow;
    [destruct (Z.ltb_spec n 1); [by run|]|];
    (intros [->|[->|[->|[->|[->|[->| ->]]]]]]; simpl;
     repeat (run; repeat case_decide; try field_case value); by simplify_eq/=).
Qed.

(** X24. The factory returns [None] iff the name of the criterion is none
    of the seven it knows (and the window check lets the criterion through);
    it prints its warning in that case and prints nothing in any other. *)
Theorem factory_returns_none_iff_unknown (criteria_name : string) (value : criteria_value) :
  (outcome (specification_factory criteria_name value) = Ok None
   ↔ window_accepted value = true ∧ criteria_name ∉ criteria_names)
  ∧ printed (specification_factory criteria_name value)
    = if window_accepted value && bool_decide (criteria_name ∉ criteria_names)
      then [CriteriaNotSupported criteria_name]
      else [].
Proof.
  destruct (window_accepted value) eqn:Hwindow; simpl.
  - destruct (decide (criteria_name ∈ criteria_names)) as [Hin|Hnin].
    + destruct (factory_known_name criteria_name value Hin) as [-> Hsome].
      rewrite bool_decide_eq_false_2 by (intros Hc; by apply Hc).
      split; [|done]. split; [done|]. by intros [_ ?].
    + rewrite factory_unknown_name by done. by rewrite bool_decide_eq_true_2.
  - destruct (factory_window_rejected criteria_name value Hwindow) as [n ->].
    split; [|done]. split; [done|]. by intros [? _].
Qed.

Lemma LowerCaseFrozenSet_lower_cased (data : list string) :
  lower_cased (LowerCaseFrozenSet data).
Proof. intros x (y & _ & ->)%elem_of_LowerCaseFrozenSet. apply lower_lower. Qed.

Lemma FAANG_lower_cased : lower_cased constants.FAANG.
Proof.
  assert (constants.FAANG
          = LowerCaseFrozenSet ["facebook"; "meta"; "apple"; "amazon"; "netflix"; "google"])
    as -> by (vm_compute; reflexivity).
  apply LowerCaseFrozenSet_lower_cased.
Qed.

Lemma lower_case_names_lower_cased (v : name_value) : lower_cased (lower_case_names v).
Proof. destruct v; apply LowerCaseFrozenSet_lower_cased. Qed.

Lemma singleton_union_not_empty (x : string) (Y : gset string) : {[x]} ∪ Y ≠ ∅.
Proof. apply (non_empty_inhabited_L x), elem_of_union_l, elem_of_singleton_2. done. Qed.

Lemma EU_union_not_empty (X Y : gset string) : X ∪ constants.EU_COUNTRIES ∪ Y ≠ ∅.
Proof.
  apply (non_empty_inhabited_L "Spain"%string), elem_of_union_l, elem_of_union_r.
  apply (bool_decide_eq_true_1 _). vm_compute. reflexivity.
Qed.

(** X25. What the factory builds is never a composite and is well formed:
    every window it carries is at least one, every set of expected companies,
    skills or positions is in lower case, a location specification expects at
    least one place, and a total-experience specification does not count
    overlaps. *)
Theorem factory_builds_well (criteria_name : string) (value : criteria_value)
    (s : Specification) :
  outcome (specification_factory criteria_name value) = Ok (Some s) → well_built s.
Proof.
  destruct (window_accepted value) eqn:Hwindow.
  2: { destruct (factory_window_rejected criteria_name value Hwindow) as [n ->]. done. }
  destruct (decide (criteria_name ∈ criteria_names)) as [Hin|Hnin].
  2: { by rewrite factory_unknown_name. }
  pose proof FAANG_lower_cased. pose proof LowerCaseFrozenSet_lower_cased.
  pose proof lower_case_names_lower_cased.
  revert Hin Hwindow. rewrite elem_of_criteria_names.
  unfold specification_factory, window_accepted.
  destruct (check_last_n_experiences value) as [n|] eqn:Hn;
    [destruct (Z.ltb_spec n 1); [by run|]|];
    (intros [->|[->|[->|[->|[->|[->| ->]]]]]] _; simpl;
     repeat (run; repeat case_decide; try field_case value);
     intros [= <-]; simpl; try done;
     try (split; [done|]; by intros ? [= <-]);
     try case_decide;
     lazymatch goal with
     | |- {[_]} ∪ _ ≠ ∅ => apply singleton_union_not_empty
     | |- _ ∪ constants.EU_COUNTRIES ∪ _ ≠ ∅ => apply EU_union_not_empty
     end).
Qed.

Lemma factory_builds_well_witness :
  outcome (specification_factory "employer" (employer_criteria "FAANG" 2))
  = Ok (Some (EmployerNameSpecification constants.FAANG 2))
  ∧ well_built (EmployerNameSpecification constants.FAANG 2).
Proof.
  split; [vm_compute; reflexivity|].
  apply (factory_builds_well "employer" (employer_criteria "FAANG" 2)).
  vm_compute; reflexivity.
Defined.

(** X26. The factory on a [location] criterion that passes the window
    check: a missing key ['countries'] raises [KeyError]; with an empty list
    of countries a missing key ['cities'] raises [KeyError] and an empty list
    of cities raises the [ValueError] of the factory; in every other case a
    location specification is built, and nothing is printed. *)
Theorem factory_location_outcome (value : criteria_value) :
  window_accepted value = true →
  specification_factory "location" value
  = match countries value with
    | None => Run [] (Err (KeyError "countries"))
    | Some (first_country :: others) =>
        Run [] (Ok (Some (LocationSpecification
                            (expected_of_countries first_country others))))
    | Some [] =>
        match cities value with
        | None => Run [] (Err (KeyError "cities"))
        | Some [] => Run [] (Err (ValueError NoCountryNoCity))
        | Some cities_ => Run [] (Ok (Some (LocationSpecification (list_to_set cities_))))
        end
    end.
Proof.
  intros Hwindow.
  destruct (countries value) as [[|first_country others]|] eqn:Hcountries.
  - destruct (cities value) as [[|c cs]|] eqn:Hcities.
    + revert Hwindow. unfold window_accepted, specification_factory.
      rewrite Hcountries, Hcities.
      destruct (check_last_n_experiences value) as [n|]; [|by run].
      intros Hn%Z.leb_le. destruct (Z.ltb_spec n 1); [lia|by run].
    + by apply factory_location_cities.
    + revert Hwindow. unfold window_accepted, specification_factory.
      rewrite Hcountries, Hcities.
      destruct (check_last_n_experiences value) as [n|]; [|by run].
      intros Hn%Z.leb_le. destruct (Z.ltb_spec n 1); [lia|by run].
  - by apply factory_location_countries.
  - revert Hwindow. unfold window_accepted, specification_factory.
    rewrite Hcountries.
    destruct (check_last_n_experiences value) as [n|]; [|by run].
    intros Hn%Z.leb_le. destruct (Z.ltb_spec n 1); [lia|by run].
Qed.

Lemma factory_location_outcome_witness :
  window_accepted (location_criteria [] []) = true
  ∧ specification_factory "location" (location_criteria [] [])
    = Run [] (Err (ValueError NoCountryNoCity)).
Proof.
  split; [reflexivity|].
  apply (factory_location_outcome (location_criteria [] [])). reflexivity.
Defined.

(** ** More on the chain builder *)




(** ** The loop of [main] *)

(** X28. When the evaluation raises on none of the profiles, the last loop
    of [main] ends normally and has printed exactly one line for each
    profile, in order: the matching line for a profile that satisfies the
    specification, and the one rejection message of the evaluation for a
    profile that does not. *)
Theorem perform_checks_one_line_each
    (target_specification : Specification) (available_profiles : list Profile) :
  Forall (fun profile =>
            ∃ b, outcome (is_satisfied_by target_specification profile) = Ok b)
         available_profiles →
  ∃ lines,
    main.perform_checks target_specification available_profiles = (lines, Ok tt)
    ∧ Forall2
        (fun profile l =>
           let evaluation := is_satisfied_by target_specification profile in
           (outcome evaluation = Ok true
            ∧ l = main.Matched (first_name profile) (last_name profile))
           ∨ (outcome evaluation = Ok false
              ∧ ∃ m, printed evaluation = [m] ∧ l = main.Explained m))
        available_profiles lines.
Proof.
  induction 1 as [|profile rest [b Hb] _ (lines & IH1 & IH2)]; simpl.
  - by exists [].
  - rewrite Hb, IH1.
    pose proof (is_satisfied_by_printed target_specification profile) as Hprinted.
    rewrite Hb in Hprinted. destruct b.
    + rewrite Hprinted. simpl. eexists. split; [done|].
      constructor; [|done]. left. by rewrite Hb.
    + destruct (printed (is_satisfied_by target_specification profile))
        as [|m [|m' l]] eqn:Hm; try done.
      simpl. eexists. split; [done|].
      constructor; [|done]. right. rewrite Hb. split; [done|]. by exists m.
Qed.

Lemma perform_checks_one_line_each_witness :
  Forall (fun profile => ∃ b, outcome (is_satisfied_by lives_in_spain profile) = Ok b)
         [lives_in "Barcelona" "Spain"; lives_in "Paris" "France"]
  ∧ ∃ lines,
      main.perform_checks lives_in_spain
        [lives_in "Barcelona" "Spain"; lives_in "Paris" "France"] = (lines, Ok tt)
      ∧ Forall2
          (fun profile l =>
             let evaluation := is_satisfied_by lives_in_spain profile in
             (outcome evaluation = Ok true
              ∧ l = main.Matched (first_name profile) (last_name profile))
             ∨ (outcome evaluation = Ok false
                ∧ ∃ m, printed evaluation = [m] ∧ l = main.Explained m))
          [lives_in "Barcelona" "Spain"; lives_in "Paris" "France"] lines.
Proof.
  assert (Forall (fun profile =>
                    ∃ b, outcome (is_satisfied_by lives_in_spain profile) = Ok b)
                 [lives_in "Barcelona" "Spain"; lives_in "Paris" "France"]) as Hverdicts
    by (repeat constructor; eexists; vm_compute; reflexivity).
  split; [exact Hverdicts|].
  exact (perform_checks_one_line_each lives_in_spain _ Hverdicts).
Defined.

(** ** The constructor and the queries together *)

Lemma in_order_dated (l : list Experience) : Forall in_order l → forallb dated l = true.
Proof.
  intros H. apply forallb_forall. intros x Hx%list_elem_of_In.
  rewrite Forall_forall in H. destruct (H x Hx) as (end_ & Hend & _).
  unfold dated. rewrite Hend. by apply bool_decide_eq_true.
Qed.

(** X29. A record in which no entry that the validator's test rejects is
    directly followed by an entry that is not in order gives a profile on
    which the queries do not raise [TypeError]: [get_n_last_experiences]
    returns a list for every [n], and [count_years_of_experience] returns a
    number, except for the [IndexError] of a profile left without
    experiences when overlaps are not counted. *)
Theorem queries_on_profile_of_shielded_record (today : Z) (raw : Profile) :
  shielded today (experiences raw) = true →
  let self := (new_Profile today raw).2 in
  (∀ n, ∃ out, get_n_last_experiences self n = Ok out)
  ∧ (∀ overlaps,
       (∃ years_, count_years_of_experience self overlaps = Ok years_)
       ∨ (count_years_of_experience self overlaps = Err IndexError
          ∧ experiences self = [] ∧ overlaps = false)).
Proof.
  intros Hshielded. unfold new_Profile.
  rewrite check_start_date_precedes_end_date_spec.
  pose proof (validated_from_in_order today (first_name raw) (last_name raw) _ Hshielded)
    as Hin_order.
  destruct (validated_from today (first_name raw) (last_name raw) (experiences raw))
    as [log kept]. simpl in *.
  apply in_order_dated in Hin_order. split.
  - intros n. unfold get_n_last_experiences.
    rewrite sorted_by_ends_at by done. simpl. destruct (_ <=? n); by eexists.
  - intros overlaps. unfold count_years_of_experience.
    rewrite sorted_by_starts_at. simpl.
    rewrite intervals_of_dated, (forallb_perm _ _ _ (stable_sort_perm starts_at _)).
    simpl. rewrite Hin_order. simpl.
    pose proof (stable_sort_length starts_at kept) as Hlen.
    destruct overlaps; simpl; [left; by eexists|].
    destruct (stable_sort starts_at kept) as [|x l].
    + right. destruct kept; [done|discriminate].
    + left. rewrite fmap_cons, merge_intervals_cons. simpl. by eexists.
Qed.

Lemma queries_on_profile_of_shielded_record_witness :
  shielded 738886 (experiences (candidate_with good_bad_good)) = true
  ∧ (∀ n, ∃ out,
       get_n_last_experiences (new_Profile 738886 (candidate_with good_bad_good)).2 n
       = Ok out).
Proof.
  split; [reflexivity|].
  apply (queries_on_profile_of_shielded_record 738886 (candidate_with good_bad_good)).
  reflexivity.
Defined.

(** ** The longest of the last experiences *)

Lemma max_by_spec {A} (key : A → Z) (best : A) (l : list A) :
  max_by key best l ∈ best :: l
  ∧ ∀ x, x ∈ best :: l → key x ≤ key (max_by key best l).
Proof.
  revert best. induction l as [|y l IH]; intros best; simpl.
  - split; [apply list_elem_of_here|]. intros x Hx%list_elem_of_singleton. by subst.
  - destruct (IH (if key best <? key y then y else best)) as [Hin Hmax].
    split.
    + destruct (key best <? key y).
      * by apply list_elem_of_further.
      * apply elem_of_cons in Hin as [->|Hin]; [apply list_elem_of_here|].
        by do 2 apply list_elem_of_further.
    + intros x Hx. destruct (Z.ltb_spec (key best) (key y)).
      * apply elem_of_cons in Hx as [->|Hx]; [|by apply Hmax].
        etrans; [|apply Hmax, list_elem_of_here]. lia.
      * apply elem_of_cons in Hx as [->|[->|Hx]%elem_of_cons].
        -- apply Hmax, list_elem_of_here.
        -- etrans; [|apply Hmax, list_elem_of_here]. lia.
        -- by apply Hmax, list_elem_of_further.
Qed.

Lemma is_satisfied_by_WorkExperienceLength
    (years_ : Q) (operand : string) (n : Z) (candidate : Profile) :
  is_satisfied_by (WorkExperienceLengthSpecification years_ operand n) candidate
  = (last_n_experiences ← lift (get_n_last_experiences candidate n);
     longest_experience ← lift (max_with_key duration last_n_experiences);
     longest_experience_in_days ←
       lift (match duration longest_experience with
             | Some d => Ok d
             | None => Err TypeError
             end);
     lift (comparison_functions operand) ≫= fun compare : Q → Q → bool =>
     if compare (tenths (round_tenths longest_experience_in_days
                                      constants.NUMBER_OF_DAYS_IN_ONE_YEAR)) years_
     then mret true
     else print (WorkedForNotDuring operand years_ n) ;; mret false).
Proof. reflexivity. Qed.

(** X30. Given the last experiences the profile hands out, at least one and
    each with an end date, and an operand of the table, the
    DurationOfEmployment specification returns a verdict: the comparison of
    the years of the longest of these experiences with the expected years.
    The days that are rounded are the days of one of the experiences, and no
    other of them lasted longer. *)
Theorem work_experience_length_compares_longest
    (years_ : Q) (operand : string) (n : Z) (candidate : Profile)
    (checked : list Experience) (compare : Q → Q → bool) :
  get_n_last_experiences candidate n = Ok checked →
  checked ≠ [] →
  forallb dated checked = true →
  comparison_functions operand = Ok compare →
  ∃ days,
    (∃ experience, experience ∈ checked
                   ∧ days = end_of experience - starts_at experience)
    ∧ (∀ experience, experience ∈ checked →
                     end_of experience - starts_at experience ≤ days)
    ∧ outcome (is_satisfied_by
                 (WorkExperienceLengthSpecification years_ operand n) candidate)
      = Ok (compare (tenths (round_tenths days constants.NUMBER_OF_DAYS_IN_ONE_YEAR))
                    years_).
Proof.
  intros Hchecked Hne Hdated Hcompare.
  destruct checked as [|x l]; [done|].
  set (key := fun y : Experience => default 0 (duration y)).
  assert (∀ y, y ∈ x :: l → duration y = Some (end_of y - starts_at y)) as Hduration.
  { intros y Hy%list_elem_of_In. rewrite forallb_forall in Hdated.
    specialize (Hdated y Hy). unfold dated in Hdated.
    apply bool_decide_eq_true in Hdated as [end_ Hend].
    unfold duration, end_of. by rewrite Hend. }
  assert (forallb (fun y => bool_decide (is_Some (duration y))) (x :: l) = true) as Hkeys.
  { apply forallb_forall. intros y Hy%list_elem_of_In.
    apply bool_decide_eq_true. rewrite Hduration by done. by eexists. }
  destruct (max_by_spec key x l) as [Hin Hmax].
  exists (end_of (max_by key x l) - starts_at (max_by key x l)).
  split; [by eexists|]. split.
  - intros y Hy. specialize (Hmax y Hy). unfold key in Hmax.
    by rewrite !Hduration in Hmax.
  - assert (max_with_key duration (x :: l) = Ok (max_by key x l)) as Hlongest
      by (unfold max_with_key; by rewrite Hkeys).
    rewrite is_satisfied_by_WorkExperienceLength, Hchecked.
    unfold lift. rewrite outcome_bind. cbn [outcome].
    rewrite Hlongest, outcome_bind. cbn [outcome].
    rewrite Hduration by done. rewrite outcome_bind. cbn [outcome].
    rewrite Hcompare, outcome_bind. cbn [outcome].
    by destruct (compare _ _).
Qed.

Lemma work_experience_length_compares_longest_witness :
  get_n_last_experiences POTENTIAL_CANDIDATE 2 = Ok [glovo; blablacar]
  ∧ [glovo; blablacar] ≠ []
  ∧ forallb dated [glovo; blablacar] = true
  ∧ comparison_functions ">" = Ok (fun x y => negb (Qle_bool x y))
  ∧ ∃ days,
      (∃ experience, experience ∈ [glovo; blablacar]
                     ∧ days = end_of experience - starts_at experience)
      ∧ (∀ experience, experience ∈ [glovo; blablacar] →
                       end_of experience - starts_at experience ≤ days)
      ∧ outcome (is_satisfied_by (WorkExperienceLengthSpecification 2 ">" 2)
                                 POTENTIAL_CANDIDATE)
        = Ok (negb (Qle_bool
                      (tenths (round_tenths days constants.NUMBER_OF_DAYS_IN_ONE_YEAR)) 2)).
Proof.
  split; [reflexivity|]. split; [discriminate|]. split; [reflexivity|].
  split; [reflexivity|].
  apply (work_experience_length_compares_longest 2 ">" 2 POTENTIAL_CANDIDATE
           [glovo; blablacar] (fun x y => negb (Qle_bool x y)));
    [reflexivity|discriminate|reflexivity|reflexivity].
Defined.
